(** * aslib: [Result<S,F>] and [DeepCopyPtr<Type>]

    A shallow embedding of the two class templates of aslib and the
    properties of their public contracts.

    - [Module Result] embeds [aslib::Result<S,F>]: the discriminant
      [state_], the raw buffer [storage_], the private helpers
      [allocate], [allocate_move], [substitute], [substitute_move],
      [destroy] and the public constructors, accessors and assignment
      operators built from them.
    - [Module DeepCopyPtr] embeds [aslib::DeepCopyPtr<Type>] over a heap
      of objects with a dynamic type, with the type-erased deleter kept
      as the class it was instantiated with. *)

From stdpp Require Import gmap strings list fin_maps.
From Stdlib Require Import ZArith.

(* ===================================================================== *)
(** * Result<S,F>                                                         *)
(* ===================================================================== *)

Module Result.

(** [enum State { uninit, succeeded, failed }]. *)
Inductive State := uninit | succeeded | failed.

#[global] Instance State_eq_dec : EqDecision State.
Proof. solve_decision. Defined.

(** The special member functions of a payload type, as the test fixture's
    [CallFlag] names them. *)
Inductive Call :=
  construct | copyConstruct | moveConstruct | copyOpEp | moveOpEp | destruct.

#[global] Instance Call_eq_dec : EqDecision Call.
Proof. solve_decision. Defined.

(** What a run of the container does to its payloads, in program order.
    [Called k c]: special member function [c] of the payload type of kind
    [k] ([succeeded] for [SucceededType], [failed] for [FailedType]) ran.
    [Destoroyed k]: [Destoroyer<T>()(storage_)] was applied for kind [k]. *)
Inductive Event :=
| Called (k : State) (c : Call)
| Destoroyed (k : State).

#[global] Instance Event_eq_dec : EqDecision Event.
Proof. solve_decision. Defined.

(** What the container needs from a payload type [T]: whether
    [std::is_pod<T>] holds, and the value each special member function
    produces.  A move returns the new object together with what is left
    in the moved-from one. *)
Class Payload (T : Type) := {
  is_pod : bool;
  default_construct : T;             (* T()                      *)
  copy_construct : T -> T;           (* T(const T &src)          *)
  move_construct : T -> T * T;       (* T(T &&src)               *)
  copy_assign : T -> T -> T;         (* lhs = rhs                *)
  move_assign : T -> T -> T * T      (* lhs = std::move(rhs)     *)
}.
Arguments is_pod T {_}.
Arguments default_construct T {_}.

(** A copy or move constructor that builds an object equal to its
    argument, which is what [CopyConstructible] and [MoveConstructible]
    ask of a type. *)
Class CopyConstructible (T : Type) `{Payload T} : Prop :=
  copy_construct_eq : forall t : T, copy_construct t = t.
Class MoveConstructible (T : Type) `{Payload T} : Prop :=
  move_construct_eq : forall t : T, fst (move_construct t) = t.

(** The exception classes the accessors throw, with their bases. *)
Inductive exception :=
  std_exception | std_runtime_error | CantDereference | NotHaveFailedObject.

#[global] Instance exception_eq_dec : EqDecision exception.
Proof. solve_decision. Defined.

Definition base_class (e : exception) : option exception :=
  match e with
  | CantDereference => Some std_runtime_error
  | NotHaveFailedObject => Some std_runtime_error
  | std_runtime_error => Some std_exception
  | std_exception => None
  end.

Definition what (e : exception) : string :=
  match e with
  | CantDereference => "Failed result value."
  | NotHaveFailedObject => "Not have the Failed object."
  | _ => EmptyString
  end.

(** [catch (handler &)] accepts a thrown object of class [thrown] when
    [handler] is that class or one of its bases. *)
Fixpoint derives_from (fuel : nat) (thrown handler : exception) : bool :=
  if decide (thrown = handler) then true
  else match fuel with
       | O => false
       | Datatypes.S n =>
           match base_class thrown with
           | Some b => derives_from n b handler
           | None => false
           end
       end.

Definition catchable_as (handler thrown : exception) : bool :=
  derives_from 3 thrown handler.

(** The outcome of an accessor that returns a reference or throws. *)
Inductive Access (A : Type) :=
| Returns (a : A)
| Throws (e : exception)
| Undefined.
Arguments Returns {A} a.
Arguments Throws {A} e.
Arguments Undefined {A}.

(** A run that has a defined result yields it with the events it
    produced; [None] is a run without a defined result (a read of
    storage that holds no object of the type read, a failed [assert]). *)
Definition M (A : Type) : Type := option (A * list Event).

Definition ret {A} (a : A) : M A := Some (a, []).

Definition bind {A B} (m : M A) (k : A -> M B) : M B :=
  match m with
  | Some (a, t) =>
      match k a with
      | Some (b, t') => Some (b, t ++ t')
      | None => None
      end
  | None => None
  end.

Definition emit (e : Event) : M unit := Some (tt, [e]).

Definition undefined {A} : M A := None.

Notation "'let*' x ':=' m 'in' k" := (bind m (fun x => k))
  (at level 10, x name, m at level 100, k at level 200).
Notation "'let*' ( x , y ) ':=' m 'in' k" := (bind m (fun '(x, y) => k))
  (at level 10, x name, y name, m at level 100, k at level 200).
Notation "m ';;;' k" := (bind m (fun _ => k))
  (at level 100, k at level 200, right associativity).

Section Container.
Context {S F : Type} `{PS : Payload S} `{PF : Payload F}.

(** [char storage_[CalcStorageSize::value]]: a buffer that holds no
    object, a live [S], or a live [F].  The same type describes the
    memory a [void *] argument points at. *)
Inductive Storage :=
| Raw
| HoldsS (s : S)
| HoldsF (f : F).

Record Result := mkResult { storage_ : Storage; state_ : State }.

(** [*static_cast<const SucceededType *>(p)] and the same for
    [FailedType]. *)
Definition as_S (c : Storage) : M S :=
  match c with HoldsS s => ret s | _ => undefined end.
Definition as_F (c : Storage) : M F :=
  match c with HoldsF f => ret f | _ => undefined end.

(** Memory in which a constructor starts: no object in the buffer, and
    whatever discriminant the bytes happen to spell. *)
Definition raw (junk : State) : Result := mkResult Raw junk.

(** [std::is_pod] of the payload type of a kind. *)
Definition pod (k : State) : bool :=
  match k with
  | succeeded => is_pod S
  | failed => is_pod F
  | uninit => true
  end.

(** [void allocate(const void *src, State srcState)] *)
Definition allocate (this : Result) (src : Storage) (srcState : State) : M Result :=
  let* st :=
    match srcState with
    | succeeded =>
        let* s := as_S src in
        emit (Called succeeded copyConstruct) ;;;
        ret (HoldsS (copy_construct s))
    | failed =>
        let* f := as_F src in
        emit (Called failed copyConstruct) ;;;
        ret (HoldsF (copy_construct f))
    | uninit => ret (storage_ this)
    end in
  ret (mkResult st srcState).

(** [void allocate(State state)], the overload that default-constructs. *)
Definition allocate_default (this : Result) (state : State) : M Result :=
  if decide (state = uninit) then undefined (* assert(state != uninit) *)
  else
    let* st :=
      match state with
      | succeeded =>
          emit (Called succeeded construct) ;;; ret (HoldsS (default_construct S))
      | failed =>
          emit (Called failed construct) ;;; ret (HoldsF (default_construct F))
      | uninit => ret (storage_ this)
      end in
    ret (mkResult st state).

(** [void allocate_move(void *src, State srcState)]; also returns what
    the move leaves at [src]. *)
Definition allocate_move (this : Result) (src : Storage) (srcState : State)
  : M (Result * Storage) :=
  let* (st, src') :=
    match srcState with
    | succeeded =>
        let* s := as_S src in
        emit (Called succeeded moveConstruct) ;;;
        ret (HoldsS (fst (move_construct s)), HoldsS (snd (move_construct s)))
    | failed =>
        let* f := as_F src in
        emit (Called failed moveConstruct) ;;;
        ret (HoldsF (fst (move_construct f)), HoldsF (snd (move_construct f)))
    | uninit => ret (storage_ this, src)
    end in
  ret (mkResult st srcState, src').

(** [Destoroyer<T>::operator()(void *p)]: nothing for a POD type, the
    destructor call otherwise.  Either way the buffer counts as holding
    no object from then on. *)
Definition Destoroyer (k : State) (p : Storage) : M Storage :=
  emit (Destoroyed k) ;;;
  if pod k then ret Raw
  else
    match k with
    | succeeded => as_S p ;;; emit (Called succeeded destruct) ;;; ret Raw
    | failed => as_F p ;;; emit (Called failed destruct) ;;; ret Raw
    | uninit => ret p
    end.

(** [void destroy()] *)
Definition destroy (this : Result) : M Result :=
  let* st :=
    match state_ this with
    | succeeded => Destoroyer succeeded (storage_ this)
    | failed => Destoroyer failed (storage_ this)
    | uninit => ret (storage_ this)
    end in
  ret (mkResult st uninit).

(** Where the [src] argument of [substitute] points: into the buffer of
    the object assigned to ([rhs] is [*this] or its payload), or at
    memory outside it. *)
Inductive Pointer :=
| Own
| Ext (cell : Storage).

Definition load (this : Result) (src : Pointer) : Storage :=
  match src with
  | Own => storage_ this
  | Ext c => c
  end.

(** [Result &substitute(const void *src, State srcState)] *)
Definition substitute (this : Result) (src : Pointer) (srcState : State) : M Result :=
  let* this := (if decide (state_ this <> uninit) then destroy this else ret this) in
  let* this := (if decide (srcState <> uninit) then allocate_default this srcState
                else ret this) in
  let* st :=
    match srcState with
    | succeeded =>
        let* rhs := as_S (load this src) in
        let* lhs := as_S (storage_ this) in
        emit (Called succeeded copyOpEp) ;;;
        ret (HoldsS (copy_assign lhs rhs))
    | failed =>
        let* rhs := as_F (load this src) in
        let* lhs := as_F (storage_ this) in
        emit (Called failed copyOpEp) ;;;
        ret (HoldsF (copy_assign lhs rhs))
    | uninit => ret (storage_ this)
    end in
  ret (mkResult st srcState).

(** [Result &substitute_move(void *src, State srcState)]; also returns
    what is left at [src] when it points outside [*this]. *)
Definition substitute_move (this : Result) (src : Pointer) (srcState : State)
  : M (Result * Pointer) :=
  let* this := (if decide (state_ this <> uninit) then destroy this else ret this) in
  let* this := (if decide (srcState <> uninit) then allocate_default this srcState
                else ret this) in
  let* (st, src') :=
    match srcState with
    | succeeded =>
        let* rhs := as_S (load this src) in
        let* lhs := as_S (storage_ this) in
        emit (Called succeeded moveOpEp) ;;;
        ret (HoldsS (fst (move_assign lhs rhs)),
             match src with
             | Own => Own
             | Ext _ => Ext (HoldsS (snd (move_assign lhs rhs)))
             end)
    | failed =>
        let* rhs := as_F (load this src) in
        let* lhs := as_F (storage_ this) in
        emit (Called failed moveOpEp) ;;;
        ret (HoldsF (fst (move_assign lhs rhs)),
             match src with
             | Own => Own
             | Ext _ => Ext (HoldsF (snd (move_assign lhs rhs)))
             end)
    | uninit => ret (storage_ this, src)
    end in
  ret (mkResult st srcState, src').

(** ** Constructors and destructor

    Each constructor takes [junk], the discriminant spelled by the memory
    it is run on; a constructor with a member initializer for [state_]
    overwrites it. *)

(** [Result() : state_(uninit) {}] *)
Definition Result_default (junk : State) : Result := mkResult Raw uninit.

(** [Result(const SucceededType &src) { allocate(&src, succeeded); }] *)
Definition Result_from_S (junk : State) (src : S) : M Result :=
  allocate (raw junk) (HoldsS src) succeeded.

(** [Result(SucceededType &&src) { allocate_move(&src, succeeded); }] *)
Definition Result_from_S_move (junk : State) (src : S) : M (Result * Storage) :=
  allocate_move (raw junk) (HoldsS src) succeeded.

(** [Result(const FailedType &src) { allocate(&src, failed); }] *)
Definition Result_from_F (junk : State) (src : F) : M Result :=
  allocate (raw junk) (HoldsF src) failed.

(** [Result(FailedType &&src) { allocate_move(&src, failed); }] *)
Definition Result_from_F_move (junk : State) (src : F) : M (Result * Storage) :=
  allocate_move (raw junk) (HoldsF src) failed.

(** [Result(const Result &src)]: no member initializer; returns before
    anything is written when [src] is [uninit]. *)
Definition Result_copy (junk : State) (src : Result) : M Result :=
  if decide (state_ src = uninit) then ret (raw junk)
  else allocate (raw junk) (storage_ src) (state_ src).

(** [Result(Result &&src) : state_(uninit)]; also returns [src] as the
    move leaves it. *)
Definition Result_move (junk : State) (src : Result) : M (Result * Result) :=
  let this := mkResult Raw uninit in
  if decide (state_ src = uninit) then ret (this, src)
  else
    let* (this, cell) := allocate_move this (storage_ src) (state_ src) in
    ret (this, mkResult cell (state_ src)).

(** [~Result() { destroy(); }] *)
Definition Result_destructor (this : Result) : M Result := destroy this.

(** ** Accessors *)

(** [operator bool() const] *)
Definition op_bool (this : Result) : bool :=
  bool_decide (state_ this = succeeded).

(** [const SucceededType &operator*() const] *)
Definition op_deref_const (this : Result) : Access S :=
  if negb (op_bool this) then Throws CantDereference
  else match storage_ this with
       | HoldsS s => Returns s
       | _ => Undefined
       end.

(** [SucceededType &operator*()], a [const_cast] around the const one. *)
Definition op_deref (this : Result) : Access S := op_deref_const this.

(** [const SucceededType *operator->() const] *)
Definition op_arrow_const (this : Result) : Access S :=
  if negb (op_bool this) then Throws CantDereference
  else match storage_ this with
       | HoldsS s => Returns s
       | _ => Undefined
       end.

(** [SucceededType *operator->()] *)
Definition op_arrow (this : Result) : Access S := op_arrow_const this.

(** [const FailedType &fail() const] *)
Definition fail_const (this : Result) : Access F :=
  if decide (state_ this = failed) then
    match storage_ this with
    | HoldsF f => Returns f
    | _ => Undefined
    end
  else Throws NotHaveFailedObject.

(** [FailedType &fail()] *)
Definition fail (this : Result) : Access F := fail_const this.

(** ** Assignment operators *)

(** The right-hand side of an assignment from a [Result]: the object
    assigned to, or another one. *)
Inductive Rhs :=
| Self
| Other (rhs : Result).

Definition rhs_storage (rhs : Rhs) : Pointer :=
  match rhs with
  | Self => Own
  | Other r => Ext (storage_ r)
  end.

Definition rhs_state (this : Result) (rhs : Rhs) : State :=
  match rhs with
  | Self => state_ this
  | Other r => state_ r
  end.

(** [Result &operator=(const SucceededType &rhs)]; [rhs] may be the
    payload of [*this]. *)
Definition op_assign_S (this : Result) (rhs : Pointer) : M Result :=
  substitute this rhs succeeded.

(** [Result &operator=(SucceededType &&rhs)] *)
Definition op_assign_S_move (this : Result) (rhs : Pointer) : M (Result * Pointer) :=
  substitute_move this rhs succeeded.

(** [Result &operator=(const FailedType &rhs)] *)
Definition op_assign_F (this : Result) (rhs : Pointer) : M Result :=
  substitute this rhs failed.

(** [Result &operator=(FailedType &&rhs)] *)
Definition op_assign_F_move (this : Result) (rhs : Pointer) : M (Result * Pointer) :=
  substitute_move this rhs failed.

(** [Result &operator=(const Result &rhs)] *)
Definition op_assign (this : Result) (rhs : Rhs) : M Result :=
  substitute this (rhs_storage rhs) (rhs_state this rhs).

(** [Result &operator=(Result &&rhs)]; also returns [rhs] as the move
    leaves it: only its buffer is reachable through the pointer handed
    to [substitute_move]. *)
Definition op_assign_move (this : Result) (rhs : Rhs) : M (Result * Rhs) :=
  let* (this', p) := substitute_move this (rhs_storage rhs) (rhs_state this rhs) in
  ret (this',
       match rhs, p with
       | Other r, Ext c => Other (mkResult c (state_ r))
       | _, _ => rhs
       end).

(** ** The invariant of the data model *)

(** The buffer holds exactly what the discriminant says. *)
Definition holds (c : Storage) (k : State) : bool :=
  match k, c with
  | uninit, Raw => true
  | succeeded, HoldsS _ => true
  | failed, HoldsF _ => true
  | _, _ => false
  end.

Definition wf (r : Result) : bool := holds (storage_ r) (state_ r).

(** What [src] must point at for [substitute] to read it as [srcState]. *)
Definition readable (this : Result) (src : Pointer) (srcState : State) : bool :=
  match src with
  | Own => bool_decide (srcState = state_ this)
  | Ext c => bool_decide (srcState = uninit) || holds c srcState
  end.

(** The events of destroying a payload of kind [k]. *)
Definition destroy_events (k : State) : list Event :=
  match k with
  | uninit => []
  | _ => Destoroyed k :: (if pod k then [] else [Called k destruct])
  end.

(** How often an event occurs in a run. *)
Definition occurrences (e : Event) (t : list Event) : nat :=
  length (filter (fun x => x = e) t).

(** The events of constructing a payload of kind [k] by default and of
    assigning to it with the assignment operator [c]. *)
Definition construct_events (k : State) : list Event :=
  match k with
  | uninit => []
  | _ => [Called k construct]
  end.

Definition assign_events (c : Call) (k : State) : list Event :=
  match k with
  | uninit => []
  | _ => [Called k c]
  end.

End Container.

Arguments Storage : clear implicits.
Arguments Result : clear implicits.
Arguments Pointer : clear implicits.
Arguments Rhs : clear implicits.
Arguments pod S F {PS PF} k.
Arguments destroy_events S F {PS PF} k.

(** The events of an assignment of a source of kind [k] into [this]
    through the payload's assignment operator [c]: destroy, construct by
    default, assign. *)
Definition assignment_events {S F} `{Payload S} `{Payload F}
    (c : Call) (this : Result S F) (k : State) : list Event :=
  destroy_events S F (state_ this) ++ construct_events k ++ assign_events c k.


(** ** Payload types used by the tests and the documentation *)

(** [int]: a POD type; [int()] is zero and a move is a copy. *)
#[global] Instance int_payload : Payload Z := {|
  is_pod := true;
  default_construct := 0%Z;
  copy_construct := fun x => x;
  move_construct := fun x => (x, x);
  copy_assign := fun _ rhs => rhs;
  move_assign := fun _ rhs => (rhs, rhs)
|}.

(** [std::string]: not a POD type; a moved-from string is left empty. *)
#[global] Instance string_payload : Payload string := {|
  is_pod := false;
  default_construct := EmptyString;
  copy_construct := fun x => x;
  move_construct := fun x => (x, EmptyString);
  copy_assign := fun _ rhs => rhs;
  move_assign := fun _ rhs => (rhs, EmptyString)
|}.

(** [CoType<kindTag>] of the test fixture: it carries [flag_], a pointer
    to the [CallFlag] it reports to ([None] is [nullptr]); every special
    member function copies the pointer and leaves its source as it is. *)
Inductive SucceessTypeTag := .
Inductive FailedTypeTag := .

Record CoType (kindTag : Type) := mkCoType { flag_ : option nat }.
Arguments mkCoType {kindTag} flag_.
Arguments flag_ {kindTag} _.

#[global] Instance CoType_payload (kindTag : Type) : Payload (CoType kindTag) := {|
  is_pod := false;
  default_construct := mkCoType None;
  copy_construct := fun src => mkCoType (flag_ src);
  move_construct := fun src => (mkCoType (flag_ src), src);
  copy_assign := fun _ rhs => mkCoType (flag_ rhs);
  move_assign := fun _ rhs => (mkCoType (flag_ rhs), rhs)
|}.

#[global] Instance int_copy : CopyConstructible Z.
Proof. intros t. reflexivity. Qed.
#[global] Instance int_move : MoveConstructible Z.
Proof. intros t. reflexivity. Qed.
#[global] Instance string_copy : CopyConstructible string.
Proof. intros t. reflexivity. Qed.
#[global] Instance string_move : MoveConstructible string.
Proof. intros t. reflexivity. Qed.
#[global] Instance CoType_copy kindTag : CopyConstructible (CoType kindTag).
Proof. intros [flag]. reflexivity. Qed.
#[global] Instance CoType_move kindTag : MoveConstructible (CoType kindTag).
Proof. intros [flag]. reflexivity. Qed.

(** An assignment operator that leaves in its target a value equal to
    its right-hand side. *)
Class CopyAssignable (T : Type) `{Payload T} : Prop :=
  copy_assign_eq : forall lhs rhs : T, copy_assign lhs rhs = rhs.
Class MoveAssignable (T : Type) `{Payload T} : Prop :=
  move_assign_eq : forall lhs rhs : T, fst (move_assign lhs rhs) = rhs.

#[global] Instance int_copy_assign : CopyAssignable Z.
Proof. intros lhs rhs. reflexivity. Qed.
#[global] Instance int_move_assign : MoveAssignable Z.
Proof. intros lhs rhs. reflexivity. Qed.
#[global] Instance string_copy_assign : CopyAssignable string.
Proof. intros lhs rhs. reflexivity. Qed.
#[global] Instance string_move_assign : MoveAssignable string.
Proof. intros lhs rhs. reflexivity. Qed.
#[global] Instance CoType_copy_assign kindTag : CopyAssignable (CoType kindTag).
Proof. intros lhs [flag]. reflexivity. Qed.
#[global] Instance CoType_move_assign kindTag : MoveAssignable (CoType kindTag).
Proof. intros lhs [flag]. reflexivity. Qed.

(** [std::size_t] arithmetic: unsigned, [bits] wide. *)
Definition size_t (bits : N) (n : N) : N := (n mod 2 ^ bits)%N.

(** [class CalcStorageSize]: [value], the length of [storage_], from
    [sSize = sizeof(SucceededType)], [fSize = sizeof(FailedType)] and
    [cSize = sizeof(char)]. *)
Definition CalcStorageSize (bits sSize fSize cSize : N) : N :=
  let storageSize := if (fSize <? sSize)%N then sSize else fSize in
  size_t bits
    (storageSize / cSize
     + (if (0 <? storageSize mod cSize)%N then 1 else 0))%N.

(** ** Properties of the container *)

Section Properties.
Context {S F : Type} `{PS : Payload S} `{PF : Payload F}.

Implicit Types (this src rhs : Result S F) (k : State).

#[local] Ltac run :=
  cbv [substitute substitute_move destroy Destoroyer allocate allocate_default
       allocate_move as_S as_F load bind ret emit undefined pod
       op_assign op_assign_move op_assign_S op_assign_S_move op_assign_F
       op_assign_F_move rhs_storage rhs_state Result_copy Result_move
       Result_from_S Result_from_S_move Result_from_F Result_from_F_move
       Result_default Result_destructor raw storage_ state_
       assignment_events destroy_events construct_events assign_events];
  simpl.

Lemma wf_cases this :
  wf this = true ->
  this = mkResult Raw uninit \/
  (exists s, this = mkResult (HoldsS s) succeeded) \/
  (exists f, this = mkResult (HoldsF f) failed).
Proof.
  destruct this as [[|s|f] [| |]]; cbn; try discriminate; eauto.
Qed.

Lemma destroy_spec this :
  wf this = true ->
  destroy this = Some (mkResult Raw uninit, destroy_events S F (state_ this)).
Proof.
  intros Hwf.
  destruct (wf_cases this Hwf) as [-> | [[s ->] | [f ->]]]; run;
    cbn; destruct (is_pod S); destruct (is_pod F); reflexivity.
Qed.

Lemma substitute_spec this (src : Pointer S F) k :
  wf this = true -> readable this src k = true ->
  exists r,
    substitute this src k =
      Some (r, assignment_events copyOpEp this k)
    /\ state_ r = k /\ wf r = true.
Proof.
  intros Hwf Hrd.
  destruct (wf_cases this Hwf) as [-> | [[s ->] | [f ->]]];
    destruct src as [|[|s'|f']]; destruct k; cbn in Hrd; try discriminate;
    run; destruct (is_pod S); destruct (is_pod F); cbn; eauto.
Qed.

Lemma substitute_move_spec this (src : Pointer S F) k :
  wf this = true -> readable this src k = true ->
  exists r p,
    substitute_move this src k =
      Some ((r, p), assignment_events moveOpEp this k)
    /\ state_ r = k /\ wf r = true.
Proof.
  intros Hwf Hrd.
  destruct (wf_cases this Hwf) as [-> | [[s ->] | [f ->]]];
    destruct src as [|[|s'|f']]; destruct k; cbn in Hrd; try discriminate;
    run; destruct (is_pod S); destruct (is_pod F); cbn; eauto.
Qed.

Lemma readable_other this rhs :
  wf rhs = true -> readable this (Ext (storage_ rhs)) (state_ rhs) = true.
Proof.
  intros Hwf. destruct (wf_cases rhs Hwf) as [-> | [[s ->] | [f ->]]];
    reflexivity.
Qed.


(** The copy constructor from a live source copy-constructs the payload
    and takes over the discriminant. *)
Lemma Result_copy_live junk src :
  wf src = true -> state_ src <> uninit ->
  exists r,
    Result_copy junk src =
      Some (r, assign_events copyConstruct (state_ src))
    /\ state_ r = state_ src /\ wf r = true
    /\ (forall s, storage_ src = HoldsS s -> storage_ r = HoldsS (copy_construct s))
    /\ (forall f, storage_ src = HoldsF f -> storage_ r = HoldsF (copy_construct f)).
Proof.
  intros Hwf Hne.
  destruct (wf_cases src Hwf) as [-> | [[s ->] | [f ->]]]; [done | |];
    run; eexists; (split; [reflexivity |]);
    repeat split; intros; by simplify_eq.
Qed.

(** The move constructor initializes [state_] before it looks at the
    source, so an [uninit] source gives an [uninit] object and no event. *)
Lemma Result_move_uninit junk src :
  state_ src = uninit ->
  Result_move junk src = Some ((mkResult Raw uninit, src), []).
Proof.
  intros Hst. unfold Result_move. rewrite Hst. reflexivity.
Qed.

Lemma Result_move_live junk src :
  wf src = true -> state_ src <> uninit ->
  exists r src',
    Result_move junk src =
      Some ((r, src'), assign_events moveConstruct (state_ src))
    /\ state_ r = state_ src /\ wf r = true
    /\ state_ src' = state_ src /\ wf src' = true
    /\ (forall s, storage_ src = HoldsS s ->
          storage_ r = HoldsS (fst (move_construct s)) /\
          storage_ src' = HoldsS (snd (move_construct s)))
    /\ (forall f, storage_ src = HoldsF f ->
          storage_ r = HoldsF (fst (move_construct f)) /\
          storage_ src' = HoldsF (snd (move_construct f))).
Proof.
  intros Hwf Hne.
  destruct (wf_cases src Hwf) as [-> | [[s ->] | [f ->]]]; [done | |];
    run; do 2 eexists; (split; [reflexivity |]);
    repeat split; intros; by simplify_eq.
Qed.

(** C4 (the code at the failing input): the copy constructor has no
    member initializer for [state_] and returns at once when the source
    is [uninit], so the new object keeps the discriminant its memory
    spelled before the call.  On memory that spells [succeeded] the copy
    of a default-constructed [Result] converts to [true], and
    dereferencing it reads a buffer that holds no object. *)
Theorem copy_of_uninit_keeps_stale_state (junk0 : State) :
  (forall junk,
     exists r, Result_copy junk (Result_default (S:=S) (F:=F) junk0) = Some (r, [])
               /\ state_ r = junk /\ storage_ r = Raw)
  /\ (exists r, Result_copy succeeded (Result_default (S:=S) (F:=F) junk0) = Some (r, [])
                /\ state_ r <> uninit
                /\ op_bool r = true
                /\ op_deref r = Undefined)
  /\ (exists r, Result_copy failed (Result_default (S:=S) (F:=F) junk0) = Some (r, [])
                /\ state_ r <> uninit
                /\ fail r = Undefined).
Proof.
  split; [|split].
  - intros junk. exists (raw junk). by split.
  - exists (raw succeeded). by repeat split.
  - exists (raw failed). by repeat split.
Qed.

(** C5 (as amended): a Result-to-Result move, by the move constructor or
    by move assignment, never writes the discriminant of the moved-from
    [Result]: the source keeps its state and stays well formed, holding
    what the payload's move left behind; the target takes over the
    source's state.  Moving only the payload out of a [Result], into a
    new [Result] or by assignment, leaves in its buffer an object of the
    kind its unchanged discriminant names. *)
Theorem move_keeps_source_state junk this src :
  wf this = true -> wf src = true ->
  (exists r src' t,
     Result_move junk src = Some ((r, src'), t)
     /\ state_ src' = state_ src /\ wf src' = true
     /\ state_ r = state_ src /\ wf r = true)
  /\ (exists r src',
       op_assign_move this (Other src) =
         Some ((r, Other src'), assignment_events moveOpEp this (state_ src))
       /\ state_ src' = state_ src /\ wf src' = true
       /\ state_ r = state_ src /\ wf r = true)
  /\ (forall s, storage_ src = HoldsS s ->
       (exists r left t,
          Result_from_S_move junk s = Some ((r, left), t)
          /\ wf (mkResult left (state_ src)) = true)
       /\ (exists r left,
            op_assign_S_move this (Ext (storage_ src))
              = Some ((r, Ext left), assignment_events moveOpEp this succeeded)
            /\ wf (mkResult left (state_ src)) = true))
  /\ (forall f, storage_ src = HoldsF f ->
       (exists r left t,
          Result_from_F_move junk f = Some ((r, left), t)
          /\ wf (mkResult left (state_ src)) = true)
       /\ (exists r left,
            op_assign_F_move this (Ext (storage_ src))
              = Some ((r, Ext left), assignment_events moveOpEp this failed)
            /\ wf (mkResult left (state_ src)) = true)).
Proof.
  intros Hthis Hsrc. repeat apply conj.
  - destruct (decide (state_ src = uninit)) as [Hu | Hl].
    + exists (mkResult Raw uninit), src, [].
      rewrite (Result_move_uninit junk src Hu). by rewrite Hu.
    + destruct (Result_move_live junk src Hsrc Hl)
        as (r & src' & -> & ? & ? & ? & ? & _).
      by exists r, src', (assign_events moveConstruct (state_ src)).
  - destruct (wf_cases this Hthis) as [-> | [[s ->] | [f ->]]];
      destruct (wf_cases src Hsrc) as [-> | [[s' ->] | [f' ->]]];
      unfold assignment_events; run;
      destruct (is_pod S); destruct (is_pod F); cbn;
      do 2 eexists; (split; [reflexivity | by repeat split]).
  - intros s Hs.
    destruct (wf_cases src Hsrc) as [-> | [[s' ->] | [f' ->]]]; try done.
    cbn in Hs. injection Hs as <-. split.
    + by do 3 eexists.
    + destruct (wf_cases this Hthis) as [-> | [[s0 ->] | [f0 ->]]]; run;
        destruct (is_pod S); destruct (is_pod F); cbn; by do 2 eexists.
  - intros f Hf.
    destruct (wf_cases src Hsrc) as [-> | [[s' ->] | [f' ->]]]; try done.
    cbn in Hf. injection Hf as <-. split.
    + by do 3 eexists.
    + destruct (wf_cases this Hthis) as [-> | [[s0 ->] | [f0 ->]]]; run;
        destruct (is_pod S); destruct (is_pod F); cbn; by do 2 eexists.
Qed.

Lemma occurrences_app (e : Event) (t1 t2 : list Event) :
  occurrences e (t1 ++ t2) = (occurrences e t1 + occurrences e t2)%nat.
Proof. unfold occurrences. by rewrite filter_app, length_app. Qed.

(** A payload of kind [k] is handed to [Destoroyer] once when it is
    destroyed, and its destructor runs once unless the type is a POD. *)
Lemma destroy_events_once k k' :
  (occurrences (Destoroyed k') (destroy_events S F k) <= 1)%nat
  /\ (occurrences (Called k' destruct) (destroy_events S F k) <= 1)%nat
  /\ (k <> uninit ->
      occurrences (Destoroyed k) (destroy_events S F k) = 1%nat
      /\ occurrences (Called k destruct) (destroy_events S F k)
         = if pod S F k then 0%nat else 1%nat).
Proof.
  unfold destroy_events, pod.
  destruct k, k'; destruct (is_pod S); destruct (is_pod F);
    vm_compute; repeat split; try lia; try done.
Qed.



(** C7: dereferencing with [operator*] or [operator->], const or not,
    throws [CantDereference] exactly when the state is not [succeeded],
    and throws nothing else; [fail()] returns the failure payload when
    the state is [failed] and throws [NotHaveFailedObject] when it is
    [succeeded] or [uninit], so an [uninit] object never yields a failure
    value; both exceptions are caught by a handler for
    [std::runtime_error]. *)
Theorem accessors_follow_the_state this :
  (op_deref this = Throws CantDereference <-> state_ this <> succeeded)
  /\ (op_deref_const this = Throws CantDereference <-> state_ this <> succeeded)
  /\ (op_arrow this = Throws CantDereference <-> state_ this <> succeeded)
  /\ (op_arrow_const this = Throws CantDereference <-> state_ this <> succeeded)
  /\ (forall e, op_deref this = Throws e \/ op_arrow this = Throws e ->
                e = CantDereference)
  /\ (wf this = true -> state_ this = succeeded ->
      exists s, storage_ this = HoldsS s
                /\ op_deref this = Returns s /\ op_deref_const this = Returns s
                /\ op_arrow this = Returns s /\ op_arrow_const this = Returns s)
  /\ (wf this = true -> state_ this = failed ->
      exists f, storage_ this = HoldsF f
                /\ fail this = Returns f /\ fail_const this = Returns f)
  /\ (state_ this = succeeded \/ state_ this = uninit ->
      fail this = Throws NotHaveFailedObject
      /\ fail_const this = Throws NotHaveFailedObject)
  /\ (forall f, state_ this <> failed -> fail this <> Returns f)
  /\ catchable_as std_runtime_error CantDereference = true
  /\ catchable_as std_runtime_error NotHaveFailedObject = true.
Proof.
  destruct this as [st k].
  unfold op_deref, op_deref_const, op_arrow, op_arrow_const, fail, fail_const,
    op_bool, wf; cbn.
  repeat apply conj; try reflexivity;
    destruct k, st; compute; intros; try done; try congruence; eauto 10;
    compute in *; intuition congruence.
Qed.

(** C8: a [Result] constructed from a success value [s], by copy or by
    move, converts to [true] and dereferences to a value equal to [s],
    for a payload type whose copy and move constructors build an object
    equal to their argument. *)
Theorem construct_then_dereference (junk : State) (s : S)
    `{!CopyConstructible S} `{!MoveConstructible S} :
  (exists r t,
     Result_from_S (F:=F) junk s = Some (r, t)
     /\ op_bool r = true /\ op_deref r = Returns s /\ op_arrow r = Returns s)
  /\ (exists r left t,
       Result_from_S_move (F:=F) junk s = Some ((r, left), t)
       /\ op_bool r = true /\ op_deref r = Returns s /\ op_arrow r = Returns s).
Proof.
  split.
  - exists (mkResult (HoldsS (copy_construct s)) succeeded),
      [Called succeeded copyConstruct].
    split; [reflexivity |].
    unfold op_deref, op_deref_const, op_arrow, op_arrow_const, op_bool; cbn.
    by rewrite copy_construct_eq.
  - exists (mkResult (HoldsS (fst (move_construct s))) succeeded),
      (HoldsS (snd (move_construct s))), [Called succeeded moveConstruct].
    split; [reflexivity |].
    unfold op_deref, op_deref_const, op_arrow, op_arrow_const, op_bool; cbn.
    by rewrite move_construct_eq.
Qed.

End Properties.

(** C5 (counterexample): move-constructing from a [Result<int,
    std::string>] that holds the success value 5 leaves the source in
    state [succeeded], not in [uninit]. *)
Lemma move_leaves_source_succeeded :
  exists r src' t,
    Result_move (S:=Z) (F:=string) uninit (mkResult (HoldsS 5%Z) succeeded)
      = Some ((r, src'), t)
    /\ state_ src' = succeeded /\ state_ src' <> uninit.
Proof. do 3 eexists. split; [reflexivity | by split]. Qed.

Lemma move_keeps_source_state_witness :
  let this : Result Z string := mkResult (HoldsF "e"%string) failed in
  let src : Result Z string := mkResult (HoldsS 5%Z) succeeded in
  wf this = true /\ wf src = true /\
  (exists r src' t,
     Result_move uninit src = Some ((r, src'), t)
     /\ state_ src' = state_ src /\ wf src' = true
     /\ state_ r = state_ src /\ wf r = true)
  /\ (exists r src',
       op_assign_move this (Other src) =
         Some ((r, Other src'), assignment_events moveOpEp this (state_ src))
       /\ state_ src' = state_ src /\ wf src' = true
       /\ state_ r = state_ src /\ wf r = true).
Proof.
  intros this src. split; [reflexivity | split; [reflexivity |]].
  destruct (move_keeps_source_state uninit this src eq_refl eq_refl)
    as (Hctor & Hassign & _).
  by split.
Defined.

(** The scenario of the documentation:
    [Result<int, std::string> r(5); bool ok = bool(r);]. *)
Example result_of_five :
  exists r left t,
    Result_from_S_move (S:=Z) (F:=string) uninit 5%Z = Some ((r, left), t)
    /\ op_bool r = true
    /\ op_deref r = Returns 5%Z
    /\ fail r = Throws NotHaveFailedObject.
Proof. do 3 eexists. by vm_compute. Qed.

(** [testCopyConstructor] expects [!ud] of [R ud(u)]; on memory that
    spells [succeeded] the copy converts to [true]. *)
Example copy_of_default_on_stale_memory :
  exists ud,
    Result_copy (S:=CoType SucceessTypeTag) (F:=CoType FailedTypeTag)
      succeeded (Result_default uninit) = Some (ud, [])
    /\ op_bool ud = true
    /\ fail ud = Throws NotHaveFailedObject
    /\ op_deref ud = Undefined.
Proof. eexists. by vm_compute. Qed.


Lemma construct_then_dereference_witness :
  (exists r t,
     Result_from_S (S:=Z) (F:=string) uninit 5%Z = Some (r, t)
     /\ op_bool r = true /\ op_deref r = Returns 5%Z /\ op_arrow r = Returns 5%Z)
  /\ (exists r left t,
       Result_from_S_move (S:=Z) (F:=string) uninit 5%Z = Some ((r, left), t)
       /\ op_bool r = true /\ op_deref r = Returns 5%Z /\ op_arrow r = Returns 5%Z).
Proof.
  exact (construct_then_dereference (S:=Z) (F:=string) uninit 5%Z).
Defined.

(** ** Further properties of the container *)

Section Lifecycle.
Context {S F : Type} `{PS : Payload S} `{PF : Payload F}.

Implicit Types (this src rhs : Result S F) (k : State).

#[local] Ltac eval_ops :=
  cbv [substitute substitute_move destroy Destoroyer allocate allocate_default
       allocate_move as_S as_F load bind ret emit undefined pod
       op_assign op_assign_move op_assign_S op_assign_S_move op_assign_F
       op_assign_F_move rhs_storage rhs_state Result_copy Result_move
       Result_from_S Result_from_S_move Result_from_F Result_from_F_move
       Result_default Result_destructor raw storage_ state_
       assignment_events destroy_events construct_events assign_events];
  simpl.

(** X1: A [Result] constructed from a failure value [f], by copy or by move,
    converts to [false], [fail()] returns a value equal to [f], and
    dereferencing throws [CantDereference]. *)
Theorem construct_from_failure (junk : State) (f : F)
    `{!CopyConstructible F} `{!MoveConstructible F} :
  (exists r,
     Result_from_F (S:=S) junk f = Some (r, [Called failed copyConstruct])
     /\ wf r = true /\ op_bool r = false
     /\ fail r = Returns f /\ fail_const r = Returns f
     /\ op_deref r = Throws CantDereference
     /\ op_arrow r = Throws CantDereference)
  /\ (exists r left,
       Result_from_F_move (S:=S) junk f
         = Some ((r, left), [Called failed moveConstruct])
       /\ left = HoldsF (snd (move_construct f))
       /\ wf r = true /\ op_bool r = false
       /\ fail r = Returns f /\ fail_const r = Returns f
       /\ op_deref r = Throws CantDereference
       /\ op_arrow r = Throws CantDereference).
Proof.
  split.
  - exists (mkResult (HoldsF (copy_construct f)) failed).
    split; [reflexivity |].
    unfold fail, fail_const, op_deref, op_deref_const, op_arrow, op_arrow_const,
      op_bool, wf; cbn.
    by rewrite copy_construct_eq.
  - exists (mkResult (HoldsF (fst (move_construct f))) failed),
      (HoldsF (snd (move_construct f))).
    split; [reflexivity |].
    unfold fail, fail_const, op_deref, op_deref_const, op_arrow, op_arrow_const,
      op_bool, wf; cbn.
    by rewrite move_construct_eq.
Qed.

(** X2: the destructor hands a live payload to [Destoroyer] once and runs
    its destructor once, unless the payload type is a POD, for which no
    destructor runs; on an [uninit] object it does nothing at all.  The
    object is left [uninit], and destroying it again does nothing. *)
Theorem destructor_destroys_payload_once this :
  wf this = true ->
  Result_destructor this
    = Some (mkResult Raw uninit, destroy_events S F (state_ this))
  /\ (state_ this = uninit -> destroy_events S F (state_ this) = [])
  /\ (state_ this <> uninit ->
      occurrences (Destoroyed (state_ this)) (destroy_events S F (state_ this))
        = 1%nat
      /\ occurrences (Called (state_ this) destruct)
           (destroy_events S F (state_ this))
         = if pod S F (state_ this) then 0%nat else 1%nat)
  /\ (forall k, k <> state_ this ->
      occurrences (Destoroyed k) (destroy_events S F (state_ this)) = 0%nat
      /\ occurrences (Called k destruct) (destroy_events S F (state_ this))
         = 0%nat)
  /\ destroy (mkResult (S:=S) (F:=F) Raw uninit)
     = Some (mkResult Raw uninit, []).
Proof.
  intros Hwf. repeat apply conj.
  - by apply destroy_spec.
  - by intros ->.
  - intros Hne. by destruct (destroy_events_once (S:=S) (F:=F) (state_ this) (state_ this))
      as (_ & _ & H); apply H.
  - intros k Hk. unfold destroy_events, pod.
    destruct (state_ this), k; try done;
      destruct (is_pod S); destruct (is_pod F); by vm_compute.
  - reflexivity.
Qed.

(** X3: copy-constructing from a [Result] that holds a payload runs the
    payload's copy constructor once and nothing else; the copy has the
    state of the source and holds the copy-constructed payload, whatever
    the memory it is built on spelled. *)
Theorem copy_constructor_copies_payload junk src :
  wf src = true -> state_ src <> uninit ->
  exists r,
    Result_copy junk src = Some (r, [Called (state_ src) copyConstruct])
    /\ state_ r = state_ src /\ wf r = true
    /\ op_bool r = op_bool src
    /\ (forall s, storage_ src = HoldsS s ->
          op_deref r = Returns (copy_construct s)
          /\ fail r = Throws NotHaveFailedObject)
    /\ (forall f, storage_ src = HoldsF f ->
          fail r = Returns (copy_construct f)
          /\ op_deref r = Throws CantDereference).
Proof.
  intros Hwf Hne.
  destruct (wf_cases src Hwf) as [-> | [[s ->] | [f ->]]]; [done | |];
    eval_ops; eexists; (split; [reflexivity |]);
    repeat split; intros; by simplify_eq.
Qed.

(** X4: move-constructing from a [Result] that holds a payload runs the
    payload's move constructor once and no copy constructor: the new
    object holds what the move constructor built, the source keeps what
    the move left behind. *)
Theorem move_constructor_moves_payload junk src :
  wf src = true -> state_ src <> uninit ->
  exists r src',
    Result_move junk src = Some ((r, src'), [Called (state_ src) moveConstruct])
    /\ state_ r = state_ src /\ wf r = true
    /\ (forall s, storage_ src = HoldsS s ->
          op_deref r = Returns (fst (move_construct s))
          /\ op_deref src' = Returns (snd (move_construct s)))
    /\ (forall f, storage_ src = HoldsF f ->
          fail r = Returns (fst (move_construct f))
          /\ fail src' = Returns (snd (move_construct f))).
Proof.
  intros Hwf Hne.
  destruct (wf_cases src Hwf) as [-> | [[s ->] | [f ->]]]; [done | |];
    eval_ops; do 2 eexists; (split; [reflexivity |]);
    repeat split; intros; by simplify_eq.
Qed.

(** X5: move assignment from another [Result] runs the payload's move
    assignment operator on a default-constructed target and never a copy
    constructor or copy assignment operator; the source keeps what the
    move assignment left behind. *)
Theorem move_assignment_moves_payload this src :
  wf this = true -> wf src = true -> state_ src <> uninit ->
  exists r src' t,
    op_assign_move this (Other src) = Some ((r, Other src'), t)
    /\ t = destroy_events S F (state_ this)
           ++ [Called (state_ src) construct; Called (state_ src) moveOpEp]
    /\ (forall k, occurrences (Called k copyConstruct) t = 0%nat
                  /\ occurrences (Called k copyOpEp) t = 0%nat)
    /\ (forall s, storage_ src = HoldsS s ->
          storage_ r = HoldsS (fst (move_assign (default_construct S) s))
          /\ storage_ src' = HoldsS (snd (move_assign (default_construct S) s)))
    /\ (forall f, storage_ src = HoldsF f ->
          storage_ r = HoldsF (fst (move_assign (default_construct F) f))
          /\ storage_ src' = HoldsF (snd (move_assign (default_construct F) f))).
Proof.
  intros Hthis Hsrc Hne.
  destruct (wf_cases src Hsrc) as [-> | [[s ->] | [f ->]]]; [done | |];
    destruct (wf_cases this Hthis) as [-> | [[s0 ->] | [f0 ->]]];
    eval_ops; destruct (is_pod S); destruct (is_pod F); cbn;
    do 3 eexists; (split; [reflexivity |]); (split; [reflexivity |]);
    (split; [intros []; by vm_compute |]);
    split; intros; by simplify_eq.
Qed.

(** X6: assigning a [Result] that holds a payload to itself, or assigning it
    its own payload, does not keep the payload: the old one is destroyed,
    a default-constructed one takes its place and is assigned to itself.
    The state is unchanged. *)
Theorem self_assignment_resets_payload this :
  wf this = true ->
  (forall s, this = mkResult (HoldsS s) succeeded ->
     let d := default_construct S in
     op_assign this Self
       = Some (mkResult (HoldsS (copy_assign d d)) succeeded,
               assignment_events copyOpEp this succeeded)
     /\ op_assign_S this Own
       = Some (mkResult (HoldsS (copy_assign d d)) succeeded,
               assignment_events copyOpEp this succeeded))
  /\ (forall f, this = mkResult (HoldsF f) failed ->
     let d := default_construct F in
     op_assign this Self
       = Some (mkResult (HoldsF (copy_assign d d)) failed,
               assignment_events copyOpEp this failed)
     /\ op_assign_F this Own
       = Some (mkResult (HoldsF (copy_assign d d)) failed,
               assignment_events copyOpEp this failed))
  /\ (this = mkResult Raw uninit -> op_assign this Self = Some (this, [])).
Proof.
  intros Hwf. repeat apply conj.
  - intros s -> d. eval_ops. by destruct (is_pod S).
  - intros f -> d. eval_ops. by destruct (is_pod F).
  - by intros ->.
Qed.

(** X7: after copy assignment from another [Result] the target has the state
    of the source and a payload equal to the source's, whatever it held
    before, for payload types whose assignment operator stores a value
    equal to its right-hand side.  In a chain [r1 = r2 = s] both targets
    end up equal to [s]. *)
Theorem copy_assignment_takes_source `{!CopyAssignable S} `{!CopyAssignable F}
    this rhs :
  wf this = true -> wf rhs = true ->
  op_assign this (Other rhs)
    = Some (rhs, assignment_events copyOpEp this (state_ rhs))
  /\ (forall r1, wf r1 = true ->
      exists t1 t2,
        bind (op_assign this (Other rhs)) (fun r2 => op_assign r1 (Other r2))
          = Some (rhs, t1 ++ t2)
        /\ t1 = assignment_events copyOpEp this (state_ rhs)
        /\ t2 = assignment_events copyOpEp r1 (state_ rhs)).
Proof.
  intros Hthis Hrhs.
  assert (Hassign : forall r, wf r = true ->
    op_assign r (Other rhs) = Some (rhs, assignment_events copyOpEp r (state_ rhs))).
  { intros r Hr.
    destruct (wf_cases rhs Hrhs) as [-> | [[s ->] | [f ->]]];
      destruct (wf_cases r Hr) as [-> | [[s0 ->] | [f0 ->]]];
      eval_ops; destruct (is_pod S); destruct (is_pod F); cbn;
      by rewrite ?copy_assign_eq. }
  split; [by apply Hassign |].
  intros r1 Hr1. do 2 eexists. unfold bind at 1.
  rewrite (Hassign this Hthis), (Hassign r1 Hr1). done.
Qed.

(** X8: assigning a success value, by copy or by move, and then
    dereferencing gives back a value equal to the one assigned, and
    assigning a failure value and then calling [fail()] gives back that
    value, whatever the target held before. *)
Theorem assign_then_access
    `{!CopyAssignable S} `{!MoveAssignable S}
    `{!CopyAssignable F} `{!MoveAssignable F} this :
  wf this = true ->
  (forall s,
     (exists r t, op_assign_S this (Ext (HoldsS s)) = Some (r, t)
                  /\ op_bool r = true /\ op_deref r = Returns s)
     /\ (exists r left t,
           op_assign_S_move this (Ext (HoldsS s)) = Some ((r, Ext left), t)
           /\ left = HoldsS (snd (move_assign (default_construct S) s))
           /\ op_bool r = true /\ op_deref r = Returns s))
  /\ (forall f,
     (exists r t, op_assign_F this (Ext (HoldsF f)) = Some (r, t)
                  /\ op_bool r = false /\ fail r = Returns f
                  /\ op_deref r = Throws CantDereference)
     /\ (exists r left t,
           op_assign_F_move this (Ext (HoldsF f)) = Some ((r, Ext left), t)
           /\ left = HoldsF (snd (move_assign (default_construct F) f))
           /\ op_bool r = false /\ fail r = Returns f
           /\ op_deref r = Throws CantDereference)).
Proof.
  intros Hwf. split; intros v; split;
    destruct (wf_cases this Hwf) as [-> | [[s0 ->] | [f0 ->]]];
    eval_ops; destruct (is_pod S); destruct (is_pod F); cbn;
    repeat eexists;
    unfold op_deref, op_deref_const, fail, fail_const, op_bool; cbn;
    by rewrite ?copy_assign_eq, ?move_assign_eq.
Qed.

(** X9: the two accessors fail with different exceptions: what dereferencing
    throws is caught by a handler for [CantDereference] and not by one
    for [NotHaveFailedObject], what [fail()] throws is caught by a
    handler for [NotHaveFailedObject] and not by one for
    [CantDereference]; either is caught as [std::runtime_error] and as
    [std::exception]. *)
Theorem accessor_errors_are_distinct this (e : exception) :
  (op_deref this = Throws e \/ op_arrow this = Throws e
   \/ op_deref_const this = Throws e \/ op_arrow_const this = Throws e ->
     catchable_as CantDereference e = true
     /\ catchable_as NotHaveFailedObject e = false
     /\ catchable_as std_runtime_error e = true
     /\ catchable_as std_exception e = true)
  /\ (fail this = Throws e \/ fail_const this = Throws e ->
     catchable_as NotHaveFailedObject e = true
     /\ catchable_as CantDereference e = false
     /\ catchable_as std_runtime_error e = true
     /\ catchable_as std_exception e = true).
Proof.
  destruct this as [st k].
  unfold op_deref, op_deref_const, op_arrow, op_arrow_const, fail, fail_const,
    op_bool.
  split; intros H; destruct k, st; compute in H;
    repeat (destruct H as [H | H]); try discriminate;
    injection H as <-; by vm_compute.
Qed.

End Lifecycle.

(** ** Whole lifetimes *)

Section Lifetime.
Context {S F : Type} `{PS : Payload S} `{PF : Payload F}.

Implicit Types (this src rhs : Result S F) (k : State).

(** The assignments a program can make to one [Result] object: from a
    value or another [Result] outside it, by copy or by move, and from
    the object itself. *)
Inductive Assignment :=
| AssignS (rhs : S)
| AssignSMove (rhs : S)
| AssignF (rhs : F)
| AssignFMove (rhs : F)
| AssignResult (rhs : Result S F)
| AssignResultMove (rhs : Result S F)
| AssignSelf
| AssignSelfMove.

Definition assign (this : Result S F) (op : Assignment) : M (Result S F) :=
  match op with
  | AssignS s => op_assign_S this (Ext (HoldsS s))
  | AssignSMove s =>
      let* (r, _) := op_assign_S_move this (Ext (HoldsS s)) in ret r
  | AssignF f => op_assign_F this (Ext (HoldsF f))
  | AssignFMove f =>
      let* (r, _) := op_assign_F_move this (Ext (HoldsF f)) in ret r
  | AssignResult rhs => op_assign this (Other rhs)
  | AssignResultMove rhs =>
      let* (r, _) := op_assign_move this (Other rhs) in ret r
  | AssignSelf => op_assign this Self
  | AssignSelfMove =>
      let* (r, _) := op_assign_move this Self in ret r
  end.

(** The assignments one after the other. *)
Fixpoint assign_all (this : Result S F) (ops : list Assignment) : M (Result S F) :=
  match ops with
  | [] => ret this
  | op :: ops => let* r := assign this op in assign_all r ops
  end.

(** An assignment whose right-hand side, when it is a [Result],
    satisfies the invariant. *)
Definition assignable (op : Assignment) : bool :=
  match op with
  | AssignResult rhs | AssignResultMove rhs => wf rhs
  | _ => true
  end.

(** The state an assignment asks for, on an object in state [st]. *)
Definition requested_state (st : State) (op : Assignment) : State :=
  match op with
  | AssignS _ | AssignSMove _ => succeeded
  | AssignF _ | AssignFMove _ => failed
  | AssignResult rhs | AssignResultMove rhs => state_ rhs
  | AssignSelf | AssignSelfMove => st
  end.

(** How many payloads of kind [k] a run constructed in a buffer. *)
Definition constructions (k : State) (t : list Event) : nat :=
  (occurrences (Called k construct) t
   + occurrences (Called k copyConstruct) t
   + occurrences (Called k moveConstruct) t)%nat.

(** 1 when [k] is the kind of payload a state stands for. *)
Definition live (k state : State) : nat :=
  if decide (state = k) then 1%nat else 0%nat.

Lemma constructions_app k (t1 t2 : list Event) :
  constructions k (t1 ++ t2) = (constructions k t1 + constructions k t2)%nat.
Proof. unfold constructions. rewrite !occurrences_app. lia. Qed.

Lemma assignment_events_balance (c : Call) this k k' :
  c = copyOpEp \/ c = moveOpEp -> k' <> uninit ->
  (occurrences (Destoroyed k') (assignment_events c this k) + live k' k
   = constructions k' (assignment_events c this k) + live k' (state_ this))%nat.
Proof.
  intros Hc Hk'. unfold assignment_events, destroy_events, pod, constructions, live.
  destruct (state_ this), k, k'; try done;
    destruct (is_pod S); destruct (is_pod F);
    destruct Hc as [-> | ->]; by vm_compute.
Qed.

Lemma assign_spec this (op : Assignment) :
  wf this = true -> assignable op = true ->
  exists r c,
    assign this op
      = Some (r, assignment_events c this (requested_state (state_ this) op))
    /\ (c = copyOpEp \/ c = moveOpEp)
    /\ state_ r = requested_state (state_ this) op /\ wf r = true.
Proof.
  intros Hwf Hop.
  assert (Hself : readable this Own (state_ this) = true)
    by by apply bool_decide_eq_true.
  destruct op as [s | s | f | f | rhs | rhs | |]; cbn in Hop;
    unfold assign; cbn [requested_state].
  - destruct (substitute_spec this (Ext (HoldsS s)) succeeded Hwf eq_refl)
      as (r & Hr & ? & ?).
    exists r, copyOpEp. eauto.
  - destruct (substitute_move_spec this (Ext (HoldsS s)) succeeded Hwf eq_refl)
      as (r & p & Hr & ? & ?).
    exists r, moveOpEp. unfold op_assign_S_move, bind. rewrite Hr.
    cbn. rewrite app_nil_r. eauto.
  - destruct (substitute_spec this (Ext (HoldsF f)) failed Hwf eq_refl)
      as (r & Hr & ? & ?).
    exists r, copyOpEp. eauto.
  - destruct (substitute_move_spec this (Ext (HoldsF f)) failed Hwf eq_refl)
      as (r & p & Hr & ? & ?).
    exists r, moveOpEp. unfold op_assign_F_move, bind. rewrite Hr.
    cbn. rewrite app_nil_r. eauto.
  - destruct (substitute_spec this _ _ Hwf (readable_other this rhs Hop))
      as (r & Hr & ? & ?).
    exists r, copyOpEp. eauto.
  - destruct (substitute_move_spec this _ _ Hwf (readable_other this rhs Hop))
      as (r & p & Hr & ? & ?).
    exists r, moveOpEp.
    unfold op_assign_move, bind, rhs_storage, rhs_state. rewrite Hr.
    cbn. rewrite !app_nil_r. eauto.
  - destruct (substitute_spec this Own (state_ this) Hwf Hself)
      as (r & Hr & ? & ?).
    exists r, copyOpEp. eauto.
  - destruct (substitute_move_spec this Own (state_ this) Hwf Hself)
      as (r & p & Hr & ? & ?).
    exists r, moveOpEp.
    unfold op_assign_move, bind, rhs_storage, rhs_state. rewrite Hr.
    cbn. rewrite !app_nil_r. eauto.
Qed.

Lemma assign_all_spec (ops : list Assignment) this :
  wf this = true -> forallb assignable ops = true ->
  exists r t,
    assign_all this ops = Some (r, t)
    /\ wf r = true
    /\ state_ r = fold_left requested_state ops (state_ this)
    /\ forall k, k <> uninit ->
         (occurrences (Destoroyed k) t + live k (state_ r)
          = constructions k t + live k (state_ this))%nat.
Proof.
  revert this. induction ops as [| op ops IH]; intros this Hwf Hops.
  - exists this, []. split; [done | split; [done | split; [done |]]]. intros k _.
    unfold constructions, occurrences; cbn. lia.
  - cbn in Hops. apply andb_true_iff in Hops as [Hop Hops].
    destruct (assign_spec this op Hwf Hop) as (r1 & c & Hr1 & Hc & Hk1 & Hwf1).
    destruct (IH r1 Hwf1 Hops) as (r & t & Hr & Hwfr & Hst & Hbal).
    exists r, (assignment_events c this (requested_state (state_ this) op) ++ t).
    split; [| split; [done | split]].
    + cbn [assign_all]. unfold bind at 1. by rewrite Hr1, Hr.
    + cbn [fold_left]. by rewrite <- Hk1.
    + intros k Hk. rewrite occurrences_app, constructions_app.
      pose proof (assignment_events_balance c this
                    (requested_state (state_ this) op) k Hc Hk) as H1.
      pose proof (Hbal k Hk) as H2. rewrite Hk1 in H2. lia.
Qed.

(** X11: any sequence of assignments to a well-formed [Result] is defined and
    leaves it well formed, in the state the last assignment asked for:
    [succeeded] after a success value, [failed] after a failure value,
    the state of the source after a [Result], and the state it had after
    an assignment from itself.  Every state is reached from every
    state. *)
Theorem assignments_follow_the_source (ops : list Assignment) this :
  wf this = true -> forallb assignable ops = true ->
  exists r t,
    assign_all this ops = Some (r, t)
    /\ wf r = true
    /\ state_ r = fold_left requested_state ops (state_ this)
    /\ op_bool r
       = bool_decide (fold_left requested_state ops (state_ this) = succeeded).
Proof.
  intros Hwf Hops.
  destruct (assign_all_spec ops this Hwf Hops) as (r & t & Hr & Hwfr & Hst & _).
  exists r, t. repeat split; try done. unfold op_bool. by rewrite Hst.
Qed.

(** X12: over the lifetime of a [Result] that starts out default-constructed,
    is assigned to any number of times and is then destroyed, every
    payload constructed in its buffer is handed to [Destoroyer] exactly
    once: for either kind the two counts agree. *)
Theorem every_payload_is_destroyed_once (junk : State) (ops : list Assignment) :
  forallb assignable ops = true ->
  exists t,
    bind (assign_all (Result_default junk) ops) Result_destructor
      = Some (mkResult Raw uninit, t)
    /\ forall k, k <> uninit ->
         occurrences (Destoroyed k) t = constructions k t.
Proof.
  intros Hops.
  destruct (assign_all_spec ops (Result_default junk) eq_refl Hops)
    as (r & t & Hr & Hwf & _ & Hbal).
  exists (t ++ destroy_events S F (state_ r)).
  unfold bind, Result_destructor. rewrite Hr, (destroy_spec r Hwf).
  split; [done |]. intros k Hk.
  rewrite occurrences_app, constructions_app.
  pose proof (Hbal k Hk) as H. unfold live in H. cbn in H.
  destruct (decide (uninit = k)); [done |].
  destruct (decide (state_ r = k)) as [Heq | Hne].
  - destruct (destroy_events_once (S:=S) (F:=F) (state_ r) (state_ r))
      as (_ & _ & Hone). rewrite <- Heq in *.
    destruct (Hone Hk) as [-> _].
    assert (constructions (state_ r) (destroy_events S F (state_ r)) = 0%nat).
    { unfold destroy_events, pod, constructions.
      destruct (state_ r); try done;
        destruct (is_pod S); destruct (is_pod F); by vm_compute. }
    lia.
  - assert (occurrences (Destoroyed k) (destroy_events S F (state_ r)) = 0%nat
            /\ constructions k (destroy_events S F (state_ r)) = 0%nat) as [-> ->].
    { unfold destroy_events, pod, constructions.
      destruct (state_ r), k; try done;
        destruct (is_pod S); destruct (is_pod F); by vm_compute. }
    lia.
Qed.

End Lifetime.

(** X10: the buffer is long enough for either payload and not a [char]
    longer than needed: [value * cSize] reaches the larger of the two
    sizes and stays below it plus [cSize]; with [sizeof(char) == 1] it is
    the larger of the two sizes. *)
Theorem CalcStorageSize_fits (bits sSize fSize cSize : N) :
  (sSize < 2 ^ bits)%N -> (fSize < 2 ^ bits)%N -> (0 < cSize)%N ->
  let value := CalcStorageSize bits sSize fSize cSize in
  (sSize <= value * cSize)%N
  /\ (fSize <= value * cSize)%N
  /\ (value * cSize < N.max sSize fSize + cSize)%N
  /\ (cSize = 1%N -> value = N.max sSize fSize).
Proof.
  intros Hs Hf Hc value. subst value. unfold CalcStorageSize, size_t.
  set (m := if (fSize <? sSize)%N then sSize else fSize).
  assert (Hm : m = N.max sSize fSize).
  { subst m. destruct (N.ltb_spec fSize sSize); lia. }
  assert (Hmb : (m < 2 ^ bits)%N) by (rewrite Hm; lia).
  pose proof (N.div_mod m cSize ltac:(lia)) as Hdm.
  pose proof (N.mod_lt m cSize ltac:(lia)) as Hlt.
  set (q := (m / cSize)%N) in *. set (r := (m mod cSize)%N) in *.
  assert (Hq : (q <= m)%N) by nia.
  assert (Hsmall : (q + (if (0 <? r)%N then 1 else 0) < 2 ^ bits)%N).
  { destruct (N.ltb_spec 0 r); nia. }
  rewrite (N.mod_small _ _ Hsmall). rewrite <- Hm.
  destruct (N.ltb_spec 0 r); repeat split; try nia.
Qed.

Lemma construct_from_failure_witness :
  (exists r,
     Result_from_F (S:=Z) uninit "e"%string
       = Some (r, [Called failed copyConstruct])
     /\ wf r = true /\ op_bool r = false
     /\ fail r = Returns "e"%string /\ fail_const r = Returns "e"%string
     /\ op_deref r = Throws CantDereference
     /\ op_arrow r = Throws CantDereference)
  /\ (exists r left,
       Result_from_F_move (S:=Z) uninit "e"%string
         = Some ((r, left), [Called failed moveConstruct])
       /\ left = HoldsF (snd (move_construct "e"%string))
       /\ wf r = true /\ op_bool r = false
       /\ fail r = Returns "e"%string /\ fail_const r = Returns "e"%string
       /\ op_deref r = Throws CantDereference
       /\ op_arrow r = Throws CantDereference).
Proof.
  exact (construct_from_failure (S:=Z) (F:=string) uninit "e"%string).
Defined.

Lemma destructor_destroys_payload_once_witness :
  let this : Result Z string := mkResult (HoldsF "e"%string) failed in
  wf this = true
  /\ Result_destructor this
     = Some (mkResult Raw uninit, [Destoroyed failed; Called failed destruct]).
Proof.
  intros this. split; [reflexivity |].
  exact (proj1 (destructor_destroys_payload_once this eq_refl)).
Defined.

Lemma copy_constructor_copies_payload_witness :
  let src : Result Z string := mkResult (HoldsS 5%Z) succeeded in
  wf src = true /\ state_ src <> uninit
  /\ exists r,
       Result_copy failed src = Some (r, [Called (state_ src) copyConstruct])
       /\ state_ r = state_ src /\ wf r = true
       /\ op_bool r = op_bool src
       /\ (forall s, storage_ src = HoldsS s ->
             op_deref r = Returns (copy_construct s)
             /\ fail r = Throws NotHaveFailedObject)
       /\ (forall f, storage_ src = HoldsF f ->
             fail r = Returns (copy_construct f)
             /\ op_deref r = Throws CantDereference).
Proof.
  intros src. split; [reflexivity | split; [discriminate |]].
  apply (copy_constructor_copies_payload failed src); [reflexivity | discriminate].
Defined.

Lemma move_constructor_moves_payload_witness :
  let src : Result Z string := mkResult (HoldsF "e"%string) failed in
  wf src = true /\ state_ src <> uninit
  /\ exists r src',
       Result_move uninit src
         = Some ((r, src'), [Called (state_ src) moveConstruct])
       /\ state_ r = state_ src /\ wf r = true
       /\ (forall s, storage_ src = HoldsS s ->
             op_deref r = Returns (fst (move_construct s))
             /\ op_deref src' = Returns (snd (move_construct s)))
       /\ (forall f, storage_ src = HoldsF f ->
             fail r = Returns (fst (move_construct f))
             /\ fail src' = Returns (snd (move_construct f))).
Proof.
  intros src. split; [reflexivity | split; [discriminate |]].
  apply (move_constructor_moves_payload uninit src); [reflexivity | discriminate].
Defined.

Lemma move_assignment_moves_payload_witness :
  let this : Result Z string := mkResult (HoldsS 5%Z) succeeded in
  let src : Result Z string := mkResult (HoldsF "e"%string) failed in
  wf this = true /\ wf src = true /\ state_ src <> uninit
  /\ exists r src' t,
       op_assign_move this (Other src) = Some ((r, Other src'), t)
       /\ t = destroy_events Z string (state_ this)
              ++ [Called (state_ src) construct; Called (state_ src) moveOpEp]
       /\ (forall k, occurrences (Called k copyConstruct) t = 0%nat
                     /\ occurrences (Called k copyOpEp) t = 0%nat)
       /\ (forall s, storage_ src = HoldsS s ->
             storage_ r = HoldsS (fst (move_assign (default_construct Z) s))
             /\ storage_ src' = HoldsS (snd (move_assign (default_construct Z) s)))
       /\ (forall f, storage_ src = HoldsF f ->
             storage_ r = HoldsF (fst (move_assign (default_construct string) f))
             /\ storage_ src'
                = HoldsF (snd (move_assign (default_construct string) f))).
Proof.
  intros this src.
  split; [reflexivity | split; [reflexivity | split; [discriminate |]]].
  apply (move_assignment_moves_payload this src);
    [reflexivity | reflexivity | discriminate].
Defined.

(** [Result<int, std::string> r(5); r = r;] leaves [*r == 0]. *)
Lemma self_assignment_resets_payload_witness :
  let this : Result Z string := mkResult (HoldsS 5%Z) succeeded in
  wf this = true
  /\ op_assign this Self
     = Some (mkResult (HoldsS 0%Z) succeeded,
             [Destoroyed succeeded; Called succeeded construct;
              Called succeeded copyOpEp]).
Proof.
  intros this. split; [reflexivity |].
  destruct (self_assignment_resets_payload this eq_refl) as (H & _).
  exact (proj1 (H 5%Z eq_refl)).
Defined.

Lemma copy_assignment_takes_source_witness :
  let this : Result Z string := mkResult (HoldsS 5%Z) succeeded in
  let rhs : Result Z string := mkResult (HoldsF "e"%string) failed in
  wf this = true /\ wf rhs = true
  /\ op_assign this (Other rhs)
     = Some (rhs, assignment_events copyOpEp this (state_ rhs)).
Proof.
  intros this rhs. split; [reflexivity | split; [reflexivity |]].
  exact (proj1 (copy_assignment_takes_source this rhs eq_refl eq_refl)).
Defined.

Lemma assign_then_access_witness :
  let this : Result Z string := mkResult (HoldsF "e"%string) failed in
  wf this = true
  /\ exists r t, op_assign_S this (Ext (HoldsS 7%Z)) = Some (r, t)
                 /\ op_bool r = true /\ op_deref r = Returns 7%Z.
Proof.
  intros this. split; [reflexivity |].
  destruct (assign_then_access this eq_refl) as (H & _).
  exact (proj1 (H 7%Z)).
Defined.

Lemma CalcStorageSize_fits_witness :
  (4 < 2 ^ 64)%N /\ (32 < 2 ^ 64)%N /\ (0 < 1)%N
  /\ let value := CalcStorageSize 64 4 32 1 in
     (4 <= value * 1)%N
     /\ (32 <= value * 1)%N
     /\ (value * 1 < N.max 4 32 + 1)%N
     /\ (1%N = 1%N -> value = N.max 4 32).
Proof.
  split; [done | split; [done | split; [done |]]].
  apply (CalcStorageSize_fits 64 4 32 1); done.
Defined.

(** [testOpEp]: [r1 = s; r1 = f; r1 = u;] on a default-constructed [r1]. *)
Lemma assignments_follow_the_source_witness :
  let s : Result (CoType SucceessTypeTag) (CoType FailedTypeTag) :=
    mkResult (HoldsS (mkCoType (Some 0%nat))) succeeded in
  let f : Result (CoType SucceessTypeTag) (CoType FailedTypeTag) :=
    mkResult (HoldsF (mkCoType (Some 1%nat))) failed in
  let u : Result (CoType SucceessTypeTag) (CoType FailedTypeTag) :=
    Result_default uninit in
  let ops := [AssignResult s; AssignResult f; AssignResult u] in
  wf u = true /\ forallb assignable ops = true
  /\ exists r t,
       assign_all u ops = Some (r, t)
       /\ wf r = true
       /\ state_ r = fold_left requested_state ops (state_ u)
       /\ op_bool r
          = bool_decide (fold_left requested_state ops (state_ u) = succeeded).
Proof.
  intros s f u ops. split; [reflexivity | split; [reflexivity |]].
  apply (assignments_follow_the_source ops u); reflexivity.
Defined.

Lemma every_payload_is_destroyed_once_witness :
  let ops : list (Assignment (S:=Z) (F:=string)) :=
    [AssignS 5%Z; AssignFMove "e"%string; AssignSelf] in
  forallb assignable ops = true
  /\ exists t,
       bind (assign_all (Result_default uninit) ops) Result_destructor
         = Some (mkResult Raw uninit, t)
       /\ forall k, k <> uninit ->
            occurrences (Destoroyed k) t = constructions k t.
Proof.
  intros ops. split; [reflexivity |].
  apply (every_payload_is_destroyed_once uninit ops). reflexivity.
Defined.

End Result.

(* ===================================================================== *)
(** * DeepCopyPtr<Type>                                                   *)
(* ===================================================================== *)

Module DeepCopyPtr.

(** The classes of the program and their objects.  [dynamic_type o] is
    the class [o] was allocated with; [is_a D B] holds when [D] is [B] or
    derives from it; [copy_as S o] is the object [new S(x)] builds when
    [x] is [o] seen through a [const S &]; [equal_as S] is [operator==]
    as seen at static type [S]. *)
Class ObjectModel := {
  class : Type;
  class_eq_dec :: EqDecision class;
  object : Type;
  dynamic_type : object -> class;
  is_a : class -> class -> bool;
  is_a_refl : forall c, is_a c c = true;
  copy_as : class -> object -> object;
  copy_as_dynamic_type : forall S o, dynamic_type (copy_as S o) = S;
  equal_as : class -> object -> object -> bool;
  copy_as_equal :
    forall S o, is_a (dynamic_type o) S = true -> equal_as S (copy_as S o) o = true
}.

(** The free store: the objects that are alive, by address.  Address 0
    is the null pointer. *)
Abbreviation Heap := (gmap N object).

Definition null : N := 0%N.

(** [operator new]: the address it hands out is not null and not that
    of a live object. *)
Class Allocator `{ObjectModel} := {
  new_addr : Heap -> N;
  new_addr_not_null : forall h : Heap, new_addr h <> null;
  new_addr_fresh : forall h : Heap, h !! new_addr h = None
}.

Section Pointer.
Context `{OM : ObjectModel} `{AL : !Allocator}.

(** What a run does to the free store, in program order: [New c a] is a
    [new c(...)] that returned [a]; [Delete c a] is a
    [delete static_cast<c *>(a)] on the live object at [a], which runs
    the destructor of [c]. *)
Inductive Event :=
| New (c : class) (a : N)
| Delete (c : class) (a : N).

#[global] Instance Event_eq_dec : EqDecision Event.
Proof. solve_decision. Defined.

Record World := mkWorld { heap : Heap; log : list Event }.

(** [struct Deleter<TargetType> : DeleterBase] *)
Inductive DeleterBase :=
| Deleter (TargetType : class).

#[global] Instance DeleterBase_eq_dec : EqDecision DeleterBase.
Proof. solve_decision. Defined.

(** The fields of a [DeepCopyPtr<Type>]; [None] is a null [deleter_]. *)
Record DeepCopyPtr := mkPtr { ptr_ : N; deleter_ : option DeleterBase }.

#[global] Instance DeepCopyPtr_eq_dec : EqDecision DeepCopyPtr.
Proof. solve_decision. Defined.

(** A run from a world: [None] when the behaviour is undefined (a
    pointer that is read or deleted refers to no live object, or to one
    that is not of the class it is cast to). *)
Definition M (A : Type) : Type := World -> option (A * World).

Definition ret {A} (a : A) : M A := fun w => Some (a, w).

Definition bind {A B} (m : M A) (k : A -> M B) : M B :=
  fun w => match m w with
           | Some (a, w') => k a w'
           | None => None
           end.

Definition undefined {A} : M A := fun _ => None.

Notation "'let*' x ':=' m 'in' k" := (bind m (fun x => k))
  (at level 10, x name, m at level 100, k at level 200).
Notation "m ';;;' k" := (bind m (fun _ => k))
  (at level 100, k at level 200, right associativity).

(** [*static_cast<const S *>(p)] *)
Definition read_as (S : class) (p : N) : M object :=
  fun w => match heap w !! p with
           | Some o => if is_a (dynamic_type o) S then Some (o, w) else None
           | None => None
           end.

(** [new S( *p )] *)
Definition new_copy (S : class) (p : N) : M N :=
  let* o := read_as S p in
  fun w =>
    let a := new_addr (heap w) in
    Some (a, mkWorld (<[a := copy_as S o]> (heap w)) (log w ++ [New S a])).

(** [delete static_cast<c *>(p)]; deleting a null pointer does nothing. *)
Definition delete_as (c : class) (p : N) : M unit :=
  if decide (p = null) then ret tt
  else
    read_as c p ;;;
    fun w => Some (tt, mkWorld (delete p (heap w)) (log w ++ [Delete c p])).

(** [Deleter<TargetType>::operator()(void *p) const] *)
Definition call_deleter (d : DeleterBase) (p : N) : M unit :=
  match d with
  | Deleter TargetType => delete_as TargetType p
  end.

(** [void doDelete()] *)
Definition doDelete (this : DeepCopyPtr) : M DeepCopyPtr :=
  match deleter_ this with
  | None => ret this
  | Some d => call_deleter d (ptr_ this) ;;; ret (mkPtr null None)
  end.

(** ** Constructors and destructor; [T] is [element_type] *)

(** [DeepCopyPtr() : ptr_(0), deleter_(0)] *)
Definition DeepCopyPtr_default : DeepCopyPtr := mkPtr null None.

(** [explicit DeepCopyPtr(element_type *p)] *)
Definition DeepCopyPtr_ptr (T : class) (p : N) : DeepCopyPtr :=
  mkPtr p (if decide (p = null) then None else Some (Deleter T)).

(** [template<typename DerivedType> DeepCopyPtr(DerivedType *p)] *)
Definition DeepCopyPtr_derived_ptr (DerivedType : class) (p : N) : DeepCopyPtr :=
  mkPtr p (if decide (p = null) then None else Some (Deleter DerivedType)).

(** [element_type *get()] *)
Definition get (this : DeepCopyPtr) : N := ptr_ this.

(** [operator bool() const] *)
Definition op_bool (this : DeepCopyPtr) : bool :=
  negb (bool_decide (get this = null)).

(** [explicit DeepCopyPtr(const ThisType &src)] *)
Definition DeepCopyPtr_copy (T : class) (src : DeepCopyPtr) : M DeepCopyPtr :=
  let* p := (if decide (get src = null) then ret null else new_copy T (get src)) in
  ret (mkPtr p (if decide (get src = null) then None else Some (Deleter T))).

(** [template<typename SomeType> explicit
     DeepCopyPtr(const DeepCopyPtr<SomeType> &src)] *)
Definition DeepCopyPtr_copy_other (SomeType : class) (src : DeepCopyPtr)
  : M DeepCopyPtr :=
  let* p := (if decide (get src = null) then ret null
             else new_copy SomeType (get src)) in
  ret (mkPtr p (if decide (get src = null) then None else Some (Deleter SomeType))).

(** [DeepCopyPtr(const element_type *src)] *)
Definition DeepCopyPtr_const_ptr (T : class) (src : N) : M DeepCopyPtr :=
  let* p := (if decide (src = null) then ret null else new_copy T src) in
  ret (mkPtr p (if decide (src = null) then None else Some (Deleter T))).

(** [~DeepCopyPtr() { doDelete(); }] *)
Definition DeepCopyPtr_destructor (this : DeepCopyPtr) : M DeepCopyPtr :=
  doDelete this.

(** ** Member functions *)

(** The argument of a member function that takes a [ThisType &]: the
    object the function is called on, or another one. *)
Inductive Rhs :=
| Self
| Other (rhs : DeepCopyPtr).

(** [void swap(ThisType &other)]; returns [*this] and [other] as the
    call leaves them. *)
Definition swap (this : DeepCopyPtr) (other : Rhs) : DeepCopyPtr * Rhs :=
  match other with
  | Self => (this, Self)
  | Other o =>
      (mkPtr (ptr_ o) (deleter_ o), Other (mkPtr (ptr_ this) (deleter_ this)))
  end.

(** [void reset(element_type *p = 0)]: the temporary [ThisType(p)] takes
    over the old fields in the swap and is destroyed at the end of the
    statement. *)
Definition reset (T : class) (this : DeepCopyPtr) (p : N) : M DeepCopyPtr :=
  if decide (p = ptr_ this) then ret this
  else
    match swap (DeepCopyPtr_ptr T p) (Other this) with
    | (temporary, Other this) =>
        DeepCopyPtr_destructor temporary ;;; ret this
    | (_, Self) => ret this
    end.

(** [template<typename Other> void reset(Other *p)] *)
Definition reset_other (Other_ : class) (this : DeepCopyPtr) (p : N)
  : M DeepCopyPtr :=
  match swap (DeepCopyPtr_derived_ptr Other_ p) (Other this) with
  | (temporary, Other this) =>
      DeepCopyPtr_destructor temporary ;;; ret this
  | (_, Self) => ret this
  end.

(** [element_type *operator->() const { assert(ptr_); return ptr_; }] and
    [operator*]: no result on a null pointer. *)
Definition op_arrow (this : DeepCopyPtr) : option N :=
  if decide (ptr_ this = null) then None else Some (ptr_ this).

Definition op_deref (this : DeepCopyPtr) : M object :=
  fun w => if decide (ptr_ this = null) then None
           else match heap w !! ptr_ this with
                | Some o => Some (o, w)
                | None => None
                end.

(** [bool operator==(const ThisType &rhs) const] and [operator!=] *)
Definition op_eq (this rhs : DeepCopyPtr) : bool :=
  bool_decide (ptr_ this = ptr_ rhs).
Definition op_ne (this rhs : DeepCopyPtr) : bool := negb (op_eq this rhs).

(** [template<typename SomeTypePtr> bool operator==(const SomeTypePtr rhs)] *)
Definition op_eq_ptr (this : DeepCopyPtr) (rhs : N) : bool :=
  bool_decide (get this = rhs).
Definition op_ne_ptr (this : DeepCopyPtr) (rhs : N) : bool :=
  negb (op_eq_ptr this rhs).

(** [ThisType &operator=(const ThisType &rhs)] *)
Definition op_assign (T : class) (this : DeepCopyPtr) (rhs : Rhs) : M DeepCopyPtr :=
  match rhs with
  | Self => ret this                            (* if(this == &rhs) return *this; *)
  | Other rhs =>
      let* this := doDelete this in
      if op_bool rhs then
        let* p := new_copy T (ptr_ rhs) in
        ret (mkPtr p (Some (Deleter T)))
      else ret this
  end.

(** [template<typename DerivedType>
     ThisType &operator=(const DeepCopyPtr<DerivedType> &rhs)] *)
Definition op_assign_derived (T DerivedType : class) (this rhs : DeepCopyPtr)
  : M DeepCopyPtr :=
  let* this := doDelete this in
  if op_bool rhs then
    let* p := new_copy T (get rhs) in
    ret (mkPtr p (Some (Deleter DerivedType)))
  else ret this.

(** [ThisType &operator=(const element_type *const rhs)] *)
Definition op_assign_ptr (T : class) (this : DeepCopyPtr) (rhs : N) : M DeepCopyPtr :=
  if decide (get this = rhs) then ret this
  else
    doDelete this ;;;
    let* p := (if decide (rhs = null) then ret null else new_copy T rhs) in
    ret (mkPtr p (Some (Deleter T))).

(** [template<typename SomeType>
     ThisType &operator=(const SomeType *const rhs)] *)
Definition op_assign_some_ptr (SomeType : class) (this : DeepCopyPtr) (rhs : N)
  : M DeepCopyPtr :=
  doDelete this ;;;
  let* p := (if decide (rhs = null) then ret null else new_copy SomeType rhs) in
  ret (mkPtr p (Some (Deleter SomeType))).

(** ** The invariant of the data model *)

(** [deleter_] is null exactly when [ptr_] is, and a deleter that is
    present was instantiated with the class the held object was
    allocated with. *)
Definition invariant (w : World) (this : DeepCopyPtr) : bool :=
  match deleter_ this with
  | None => bool_decide (ptr_ this = null)
  | Some (Deleter c) =>
      negb (bool_decide (ptr_ this = null)) &&
      match heap w !! ptr_ this with
      | Some o => bool_decide (dynamic_type o = c)
      | None => false
      end
  end.

(** The world after [doDelete] on an object that satisfies the
    invariant. *)
Definition destroyed (w : World) (this : DeepCopyPtr) : World :=
  match deleter_ this with
  | None => w
  | Some (Deleter c) =>
      if decide (ptr_ this = null) then w
      else mkWorld (delete (ptr_ this) (heap w)) (log w ++ [Delete c (ptr_ this)])
  end.

(** How many [delete]s of the object at [a] a log holds. *)
Definition is_delete_of (a : N) (e : Event) : bool :=
  match e with
  | Delete _ a' => bool_decide (a' = a)
  | New _ _ => false
  end.

Definition deletions (a : N) (t : list Event) : nat :=
  length (List.filter (is_delete_of a) t).


End Pointer.

(** ** The classes of the test suite *)

(** [struct C { int i_; }] and [struct D : C], whose copy constructor
    copies [i_]; [C::operator==] compares [i_]. *)
Inductive TestClass := C | D.

#[global] Instance TestClass_eq_dec : EqDecision TestClass.
Proof. solve_decision. Defined.

Record TestObject := mkObject { allocated_as : TestClass; i_ : Z }.

Definition test_is_a (d b : TestClass) : bool :=
  match d, b with
  | C, D => false
  | _, _ => true
  end.

Definition test_copy_as (S : TestClass) (o : TestObject) : TestObject :=
  mkObject S (i_ o).

Definition test_equal_as (S : TestClass) (a b : TestObject) : bool :=
  bool_decide (i_ a = i_ b).

Lemma test_is_a_refl c : test_is_a c c = true.
Proof. by destruct c. Qed.

Lemma test_copy_as_equal S o :
  test_is_a (allocated_as o) S = true -> test_equal_as S (test_copy_as S o) o = true.
Proof. intros _. by apply bool_decide_eq_true. Qed.

#[global] Instance test_classes : ObjectModel := {|
  class := TestClass;
  object := TestObject;
  dynamic_type := allocated_as;
  is_a := test_is_a;
  is_a_refl := test_is_a_refl;
  copy_as := test_copy_as;
  copy_as_dynamic_type := fun _ _ => eq_refl;
  equal_as := test_equal_as;
  copy_as_equal := test_copy_as_equal
|}.

(** An allocator that hands out the first address that is not null and
    not in use. *)
Definition first_fit_addr `{ObjectModel} (h : Heap) : N :=
  fresh ({[null]} ∪ dom h).

Lemma first_fit_not_null `{ObjectModel} (h : Heap) : first_fit_addr h <> null.
Proof.
  unfold first_fit_addr. pose proof (is_fresh ({[null]} ∪ dom h)). set_solver.
Qed.

Lemma first_fit_fresh `{ObjectModel} (h : Heap) : h !! first_fit_addr h = None.
Proof.
  unfold first_fit_addr. pose proof (is_fresh ({[null]} ∪ dom h)).
  apply not_elem_of_dom. set_solver.
Qed.

#[global] Instance first_fit `{ObjectModel} : Allocator := {|
  new_addr := first_fit_addr;
  new_addr_not_null := first_fit_not_null;
  new_addr_fresh := first_fit_fresh
|}.

(** ** Properties of the pointer *)

Section Properties.
Context `{OM : ObjectModel} `{AL : !Allocator}.

Implicit Types (this src rhs : DeepCopyPtr) (w : World) (T S : class)
  (p a : N) (o : object).

Lemma read_as_live S p w o :
  heap w !! p = Some o -> is_a (dynamic_type o) S = true ->
  read_as S p w = Some (o, w).
Proof. intros Hp Ho. unfold read_as. by rewrite Hp, Ho. Qed.

Lemma new_copy_live S p w o :
  heap w !! p = Some o -> is_a (dynamic_type o) S = true ->
  new_copy S p w =
    Some (new_addr (heap w),
          mkWorld (<[new_addr (heap w) := copy_as S o]> (heap w))
                  (log w ++ [New S (new_addr (heap w))])).
Proof.
  intros Hp Ho. unfold new_copy, bind. by rewrite (read_as_live S p w o).
Qed.

Lemma invariant_cases w this :
  invariant w this = true ->
  this = mkPtr null None \/
  exists c o, deleter_ this = Some (Deleter c) /\ ptr_ this <> null
              /\ heap w !! ptr_ this = Some o /\ dynamic_type o = c.
Proof.
  destruct this as [p [[c]|]]; unfold invariant; cbn.
  - intros [Hp Ho]%andb_true_iff. right.
    apply negb_true_iff, bool_decide_eq_false in Hp.
    destruct (heap w !! p) as [o|] eqn:Hlook; [|done].
    apply bool_decide_eq_true in Ho. eauto 10.
  - intros ->%bool_decide_eq_true. by left.
Qed.

(** On an object that satisfies the invariant [doDelete] is defined,
    leaves the fields null and the world as [destroyed] describes. *)
Lemma doDelete_spec w this :
  invariant w this = true ->
  doDelete this w = Some (mkPtr null None, destroyed w this).
Proof.
  intros [-> | (c & o & Hd & Hp & Ho & Hc)]%invariant_cases; [done |].
  destruct this as [p d]; cbn in *. subst d.
  unfold doDelete, destroyed, call_deleter, delete_as, bind; cbn.
  destruct (decide (p = null)) as [|_]; [done |].
  rewrite (read_as_live c p w o); [done | done |].
  rewrite Hc. apply is_a_refl.
Qed.

(** [doDelete] on a null pointer changes nothing in the world, with or
    without a deleter. *)
Lemma doDelete_null w this :
  ptr_ this = null -> doDelete this w = Some (mkPtr null None, w).
Proof.
  destruct this as [p [[c]|]]; cbn; intros ->; [|done].
  unfold doDelete, call_deleter, delete_as, bind; cbn.
  by destruct (decide (null = null)).
Qed.

Lemma destroyed_lookup_ne w this p :
  p <> ptr_ this -> heap (destroyed w this) !! p = heap w !! p.
Proof.
  intros Hne. unfold destroyed. destruct (deleter_ this) as [[c]|]; [|done].
  destruct (decide (ptr_ this = null)); [done |]. cbn.
  by rewrite lookup_delete_ne.
Qed.

Lemma destroyed_pointee w this c :
  invariant w this = true -> deleter_ this = Some (Deleter c) ->
  heap (destroyed w this) !! ptr_ this = None
  /\ log (destroyed w this) = log w ++ [Delete c (ptr_ this)].
Proof.
  intros [-> | (c' & o & Hd & Hp & Ho & Hc)]%invariant_cases; [done |].
  intros Hd'. unfold destroyed. rewrite Hd'.
  destruct (decide (ptr_ this = null)); [done |]. cbn.
  by rewrite lookup_delete_eq.
Qed.

(** The two copy constructors agree when [SomeType] is [element_type]. *)
Lemma DeepCopyPtr_copy_other_same T src w :
  DeepCopyPtr_copy_other T src w = DeepCopyPtr_copy T src w.
Proof. reflexivity. Qed.

(** Copying a null [DeepCopyPtr] gives a null one and touches nothing. *)
Lemma DeepCopyPtr_copy_null T src w :
  ptr_ src = null -> DeepCopyPtr_copy T src w = Some (mkPtr null None, w).
Proof.
  intros Hp. unfold DeepCopyPtr_copy, get, bind, ret. rewrite Hp.
  by destruct (decide (null = null)).
Qed.

(** C1 (as amended): copy-constructing from a [DeepCopyPtr<T>] that
    holds a live object [o] (of class [T] or of a class derived from it)
    yields a pointee at a fresh address, different from the source's,
    built by the copy constructor of [T] from [o]: it is equal to [o] as
    a [T] and its dynamic type is [T], the element type of the source
    pointer, whatever class [o] was allocated with.  The deleter of the
    copy is [Deleter<T>], so destroying the copy deletes it as a [T]; the
    source's pointee is left alone.  The constructor template for a
    [DeepCopyPtr<SomeType>] source does the same with [SomeType]. *)
Theorem copy_construct_clones_as_element_type T src w o :
  ptr_ src <> null -> heap w !! ptr_ src = Some o ->
  is_a (dynamic_type o) T = true ->
  exists a w',
    DeepCopyPtr_copy T src w = Some (mkPtr a (Some (Deleter T)), w')
    /\ DeepCopyPtr_copy_other T src w = Some (mkPtr a (Some (Deleter T)), w')
    /\ a <> null /\ a <> ptr_ src /\ heap w !! a = None
    /\ heap w' !! a = Some (copy_as T o)
    /\ dynamic_type (copy_as T o) = T
    /\ equal_as T (copy_as T o) o = true
    /\ heap w' !! ptr_ src = Some o
    /\ log w' = log w ++ [New T a]
    /\ invariant w' (mkPtr a (Some (Deleter T))) = true
    /\ exists w'',
         DeepCopyPtr_destructor (mkPtr a (Some (Deleter T))) w'
           = Some (mkPtr null None, w'')
         /\ log w'' = log w' ++ [Delete T a]
         /\ heap w'' = heap w.
Proof.
  intros Hp Ho Hisa.
  set (a := new_addr (heap w)).
  set (w' := mkWorld (<[a := copy_as T o]> (heap w)) (log w ++ [New T a])).
  assert (Hfresh : heap w !! a = None) by apply new_addr_fresh.
  assert (Hnn : a <> null) by apply new_addr_not_null.
  assert (Hne : a <> ptr_ src) by (intros Heq; congruence).
  assert (Hcopy : DeepCopyPtr_copy T src w = Some (mkPtr a (Some (Deleter T)), w')).
  { unfold DeepCopyPtr_copy, get, bind, ret.
    destruct (decide (ptr_ src = null)); [done |].
    by rewrite (new_copy_live T (ptr_ src) w o). }
  assert (Hinv : invariant w' (mkPtr a (Some (Deleter T))) = true).
  { unfold invariant; cbn. rewrite lookup_insert_eq.
    apply andb_true_iff. split.
    - by apply negb_true_iff, bool_decide_eq_false.
    - apply bool_decide_eq_true, copy_as_dynamic_type. }
  exists a, w'. repeat apply conj; try done.
  - by cbn; rewrite lookup_insert_eq.
  - apply copy_as_dynamic_type.
  - by apply copy_as_equal.
  - by cbn; rewrite lookup_insert_ne.
  - exists (destroyed w' (mkPtr a (Some (Deleter T)))).
    split; [by apply doDelete_spec |].
    unfold destroyed; cbn. destruct (decide (a = null)); [done |]. cbn.
    split; [done |]. rewrite delete_insert_eq. by apply delete_id.
Qed.

(** C9 (as amended): assigning a [DeepCopyPtr] to itself is a no-op: the
    comparison [this == &rhs] returns before anything is destroyed or
    allocated, so the held address, the pointee, the deleter and the
    world are what they were.  The same holds for assigning the raw
    pointer the object already holds. *)
Theorem self_assignment_is_no_op T this w :
  op_assign T this Self w = Some (this, w)
  /\ op_assign_ptr T this (get this) w = Some (this, w)
  /\ (forall this' w',
       op_assign T this Self w = Some (this', w') ->
       ptr_ this' = ptr_ this /\ deleter_ this' = deleter_ this
       /\ heap w' = heap w /\ log w' = log w).
Proof.
  repeat apply conj.
  - reflexivity.
  - unfold op_assign_ptr. by destruct (decide (get this = get this)).
  - intros this' w' [= <- <-]. done.
Qed.

(** C10: destroying a [DeepCopyPtr] whose pointer is null deletes no
    pointee: [doDelete], and so the destructor, leaves the free store and
    the log as they were and the fields null.  Without a deleter
    [doDelete] returns at once with the object unchanged; with a deleter
    the deleter is called on the null pointer, which deletes nothing.
    A later [doDelete] again changes nothing.  Default-constructed
    objects and objects constructed from a null pointer are such
    objects. *)
Theorem destroying_null_deletes_nothing this w :
  ptr_ this = null ->
  doDelete this w = Some (mkPtr null None, w)
  /\ DeepCopyPtr_destructor this w = Some (mkPtr null None, w)
  /\ (deleter_ this = None -> doDelete this w = Some (this, w))
  /\ (forall d, deleter_ this = Some d -> call_deleter d (ptr_ this) w = Some (tt, w))
  /\ doDelete (mkPtr null None) w = Some (mkPtr null None, w)
  /\ doDelete DeepCopyPtr_default w = Some (DeepCopyPtr_default, w)
  /\ (forall T, doDelete (DeepCopyPtr_ptr T null) w = Some (mkPtr null None, w))
  /\ (forall T, doDelete (DeepCopyPtr_derived_ptr T null) w = Some (mkPtr null None, w)).
Proof.
  intros Hp. repeat apply conj.
  - by apply doDelete_null.
  - by apply doDelete_null.
  - intros Hd. unfold doDelete. by rewrite Hd.
  - intros [c] _. rewrite Hp. unfold call_deleter, delete_as.
    by destruct (decide (null = null)).
  - reflexivity.
  - reflexivity.
  - intros T. by apply doDelete_null.
  - intros T. by apply doDelete_null.
Qed.





(** The operations that keep the invariant: the constructors (a raw
    pointer being handed over at the class its object was allocated
    with), copy assignment from a [DeepCopyPtr] of the same type, [reset]
    and [swap]. *)
Lemma invariant_default w : invariant w DeepCopyPtr_default = true.
Proof. reflexivity. Qed.

Lemma invariant_ptr T p w :
  (p = null \/ exists o, heap w !! p = Some o /\ dynamic_type o = T) ->
  invariant w (DeepCopyPtr_ptr T p) = true
  /\ invariant w (DeepCopyPtr_derived_ptr T p) = true.
Proof.
  unfold invariant, DeepCopyPtr_ptr, DeepCopyPtr_derived_ptr; cbn.
  destruct (decide (p = null)) as [-> | Hp]; [done |].
  intros [? | (o & -> & <-)]; [done |].
  rewrite bool_decide_eq_false_2, bool_decide_eq_true_2 by done. done.
Qed.

Lemma invariant_op_assign T this rhs w o :
  invariant w this = true ->
  ptr_ rhs <> null -> ptr_ rhs <> ptr_ this -> heap w !! ptr_ rhs = Some o ->
  is_a (dynamic_type o) T = true ->
  exists this' w',
    op_assign T this (Other rhs) w = Some (this', w')
    /\ invariant w' this' = true.
Proof.
  intros Hinv Hp Hne Ho Hisa.
  assert (Hlive : heap (destroyed w this) !! ptr_ rhs = Some o)
    by by rewrite destroyed_lookup_ne.
  unfold op_assign, bind, op_bool, get. rewrite (doDelete_spec w this Hinv).
  rewrite bool_decide_eq_false_2 by done. cbn.
  rewrite (new_copy_live T _ _ o Hlive Hisa). do 2 eexists. split; [reflexivity |].
  unfold invariant; cbn. rewrite lookup_insert_eq.
  rewrite bool_decide_eq_false_2 by apply new_addr_not_null.
  rewrite bool_decide_eq_true_2 by apply copy_as_dynamic_type. done.
Qed.

Lemma invariant_reset T this p w :
  invariant w this = true ->
  (p = null \/ exists o, heap w !! p = Some o /\ dynamic_type o = T) ->
  exists this' w',
    reset T this p w = Some (this', w')
    /\ ptr_ this' = p
    /\ invariant w' this' = true.
Proof.
  intros Hinv Hp. unfold reset.
  destruct (decide (p = ptr_ this)) as [-> | Hne]; [by exists this, w |].
  cbn. unfold DeepCopyPtr_destructor, bind.
  replace (mkPtr (ptr_ this) (deleter_ this)) with this by by destruct this.
  rewrite (doDelete_spec w this Hinv). do 2 eexists.
  split; [reflexivity |]. split.
  { by destruct (decide (p = null)). }
  unfold invariant; cbn. destruct (decide (p = null)) as [-> | Hnn]; [done |].
  cbn. rewrite destroyed_lookup_ne by done.
  destruct Hp as [? | (o & -> & <-)]; [done |].
  rewrite bool_decide_eq_false_2, bool_decide_eq_true_2 by done. done.
Qed.

Lemma invariant_swap this other w :
  invariant w this = true -> invariant w other = true ->
  invariant w (fst (swap this (Other other))) = true
  /\ swap this (Other other) = (other, Other this)
  /\ swap this Self = (this, Self).
Proof.
  intros Hthis Hother. destruct this, other. by cbn.
Qed.

(** C2 (the code at the failing inputs): on an object that satisfies
    the invariant, assignment from a null raw pointer leaves [ptr_] null
    and [deleter_] not null, because [deleter_ = new Deleter<...>()] is
    not guarded by the test on [rhs] that guards [ptr_]; and assignment
    from a [DeepCopyPtr<DerivedType>] allocates the clone as an
    [element_type] but remembers [Deleter<DerivedType>], so the deleter
    does not name the class the held object was allocated with, and
    destroying the object casts it to a class it is not. *)
Theorem pointer_assignment_breaks_invariant T D this w :
  invariant w this = true ->
  (ptr_ this <> null ->
     exists this',
       op_assign_ptr T this null w = Some (this', destroyed w this)
       /\ ptr_ this' = null /\ deleter_ this' = Some (Deleter T)
       /\ invariant (destroyed w this) this' = false)
  /\ (exists this',
       op_assign_some_ptr D this null w = Some (this', destroyed w this)
       /\ ptr_ this' = null /\ deleter_ this' = Some (Deleter D)
       /\ invariant (destroyed w this) this' = false)
  /\ (forall rhs o,
       ptr_ rhs <> null -> ptr_ rhs <> ptr_ this -> heap w !! ptr_ rhs = Some o ->
       is_a (dynamic_type o) T = true -> T <> D ->
       exists a w',
         op_assign_derived T D this rhs w = Some (mkPtr a (Some (Deleter D)), w')
         /\ heap w' !! a = Some (copy_as T o)
         /\ dynamic_type (copy_as T o) = T
         /\ invariant w' (mkPtr a (Some (Deleter D))) = false
         /\ (is_a T D = false ->
             DeepCopyPtr_destructor (mkPtr a (Some (Deleter D))) w' = None)).
Proof.
  intros Hinv. pose proof (doDelete_spec w this Hinv) as Hdel.
  repeat apply conj.
  - intros Hp. unfold op_assign_ptr, bind, get.
    destruct (decide (ptr_ this = null)); [done |]. rewrite Hdel.
    destruct (decide (null = null)); [|done]. by eexists.
  - unfold op_assign_some_ptr, bind. rewrite Hdel.
    destruct (decide (null = null)); [|done]. by eexists.
  - intros rhs o Hp Hne Ho Hisa HTD.
    assert (Hlive : heap (destroyed w this) !! ptr_ rhs = Some o)
      by by rewrite destroyed_lookup_ne.
    unfold op_assign_derived, bind, op_bool, get. rewrite Hdel.
    rewrite bool_decide_eq_false_2 by done. cbn.
    rewrite (new_copy_live T _ _ o Hlive Hisa). do 2 eexists.
    split; [reflexivity |]. cbn [heap log ptr_ deleter_].
    repeat apply conj.
    + apply lookup_insert_eq.
    + apply copy_as_dynamic_type.
    + unfold invariant; cbn [heap log ptr_ deleter_]. rewrite lookup_insert_eq.
      rewrite (bool_decide_eq_false_2 (dynamic_type (copy_as T o) = D)).
      * apply andb_false_r.
      * by rewrite copy_as_dynamic_type.
    + intros Hcast.
      unfold DeepCopyPtr_destructor, doDelete, call_deleter, delete_as, bind;
        cbn [heap log ptr_ deleter_].
      destruct (decide (new_addr (heap (destroyed w this)) = null))
        as [Hnull | _]; [by apply new_addr_not_null in Hnull |].
      unfold read_as; cbn [heap log ptr_ deleter_]. rewrite lookup_insert_eq.
      by rewrite copy_as_dynamic_type, Hcast.
Qed.

End Properties.

(** ** The scenarios of the test suite *)

(** [new D(42)] at address 1. *)
Definition derived_42 : World :=
  mkWorld (<[1%N := mkObject D 42]> ∅) [].

(** C1 (counterexample): after [DeepCopyPtr<C> b = new D(42);
    DeepCopyPtr<C> b2(b);] the pointee of [b2] was allocated as a [C],
    not as a [D], and destroying [b2] deletes it as a [C]. *)
Lemma copy_of_derived_is_allocated_as_base :
  let b := DeepCopyPtr_derived_ptr D 1%N in
  exists b2 w' o w'',
    DeepCopyPtr_copy C b derived_42 = Some (b2, w')
    /\ heap w' !! ptr_ b2 = Some o
    /\ dynamic_type o = C /\ dynamic_type o <> D
    /\ deleter_ b2 = Some (Deleter C)
    /\ DeepCopyPtr_destructor b2 w' = Some (mkPtr null None, w'')
    /\ log w'' = [New C (ptr_ b2); Delete C (ptr_ b2)].
Proof.
  intros b. do 4 eexists. vm_compute. repeat split; try reflexivity. discriminate.
Qed.

Lemma copy_construct_clones_as_element_type_witness :
  let src := DeepCopyPtr_derived_ptr D 1%N in
  let o := mkObject D 42 in
  ptr_ src <> null /\ heap derived_42 !! ptr_ src = Some o /\
  is_a (dynamic_type o) C = true /\
  exists a w',
    DeepCopyPtr_copy C src derived_42 = Some (mkPtr a (Some (Deleter (C : class))), w')
    /\ DeepCopyPtr_copy_other C src derived_42 = Some (mkPtr a (Some (Deleter (C : class))), w')
    /\ a <> null /\ a <> ptr_ src /\ heap derived_42 !! a = None
    /\ heap w' !! a = Some (copy_as C o)
    /\ dynamic_type (copy_as C o) = C
    /\ equal_as C (copy_as C o) o = true
    /\ heap w' !! ptr_ src = Some o
    /\ log w' = log derived_42 ++ [New C a]
    /\ invariant w' (mkPtr a (Some (Deleter (C : class)))) = true
    /\ exists w'',
         DeepCopyPtr_destructor (mkPtr a (Some (Deleter (C : class)))) w'
           = Some (mkPtr null None, w'')
         /\ log w'' = log w' ++ [Delete C a]
         /\ heap w'' = heap derived_42.
Proof.
  intros src o.
  split; [by vm_compute | split; [reflexivity | split; [reflexivity |]]].
  apply (copy_construct_clones_as_element_type (OM:=test_classes) C src derived_42 o);
    [by vm_compute | reflexivity | reflexivity].
Defined.

(** C9 (counterexample): after [DeepCopyPtr<C> p(new C(7)); p = p;] the
    object holds the address it held before and nothing was allocated. *)
Lemma self_assignment_keeps_the_address :
  let w := mkWorld (<[1%N := mkObject C 7]> ∅) [] in
  let p := DeepCopyPtr_ptr C 1%N in
  exists p' w',
    op_assign C p Self w = Some (p', w')
    /\ get p' = get p
    /\ heap w' = heap w
    /\ log w' = [].
Proof. intros w p. by exists p, w. Qed.

Lemma destroying_null_deletes_nothing_witness :
  let this := mkPtr null (Some (Deleter (C : class))) in
  let w := derived_42 in
  ptr_ this = null /\
  doDelete this w = Some (mkPtr null None, w)
  /\ DeepCopyPtr_destructor this w = Some (mkPtr null None, w)
  /\ (deleter_ this = None -> doDelete this w = Some (this, w))
  /\ (forall d, deleter_ this = Some d -> call_deleter d (ptr_ this) w = Some (tt, w))
  /\ doDelete (mkPtr null None) w = Some (mkPtr null None, w)
  /\ doDelete DeepCopyPtr_default w = Some (DeepCopyPtr_default, w)
  /\ (forall T, doDelete (DeepCopyPtr_ptr T null) w = Some (mkPtr null None, w))
  /\ (forall T, doDelete (DeepCopyPtr_derived_ptr T null) w = Some (mkPtr null None, w)).
Proof.
  intros this w. split; [reflexivity |].
  apply (destroying_null_deletes_nothing this w). reflexivity.
Defined.

(** [new C(1)] at address 1 and [new D(1)] at address 2. *)
Definition base_and_derived : World :=
  mkWorld (<[1%N := mkObject C 1]> (<[2%N := mkObject D 1]> ∅)) [].

(** [testOpequal_lp_toSuper_from0]: [DeepCopyPtr<C> lhs(new C(1));
    D *rhs = 0; lhs = rhs;] leaves a deleter on a null pointer. *)
Example test_assign_null_derived_pointer :
  op_assign_some_ptr D (DeepCopyPtr_ptr C 1%N) null base_and_derived
  = Some (mkPtr null (Some (Deleter (D : class))),
          mkWorld (<[2%N := mkObject D 1]> ∅) [Delete (C : class) 1%N]).
Proof. by vm_compute. Qed.

(** [testOpequal_sp_toSuper]: [DeepCopyPtr<C> c; DeepCopyPtr<D> d(new
    D(1)); c = d;] leaves [c] holding a [C] behind a [Deleter<D>], and
    the destructor of [c] has no defined behaviour. *)
Example test_assign_derived_pointer :
  exists c w',
    op_assign_derived C D DeepCopyPtr_default (DeepCopyPtr_ptr D 2%N)
      base_and_derived = Some (c, w')
    /\ heap w' !! ptr_ c = Some (mkObject C 1)
    /\ deleter_ c = Some (Deleter (D : class))
    /\ invariant w' c = false
    /\ DeepCopyPtr_destructor c w' = None.
Proof. do 2 eexists. by vm_compute. Qed.

Lemma pointer_assignment_breaks_invariant_witness :
  let this := DeepCopyPtr_ptr C 1%N in
  let w := base_and_derived in
  invariant w this = true /\
  exists this',
    op_assign_ptr C this null w = Some (this', destroyed w this)
    /\ ptr_ this' = null /\ deleter_ this' = Some (Deleter (C : class))
    /\ invariant (destroyed w this) this' = false.
Proof.
  intros this w. split; [reflexivity |].
  destruct (pointer_assignment_breaks_invariant (OM:=test_classes) C D this w eq_refl)
    as (H & _).
  apply H. by vm_compute.
Defined.



(** ** Further properties of the pointer *)

Section Ownership.
Context `{OM : ObjectModel} `{AL : !Allocator}.

Implicit Types (this src rhs other : DeepCopyPtr) (w : World) (T S D : class)
  (p a : N) (o : object).

(** The invariant of an object depends on the heap only at the address
    the object holds. *)
Lemma invariant_same_pointee w w' this :
  heap w' !! ptr_ this = heap w !! ptr_ this ->
  invariant w' this = invariant w this.
Proof. intros Heq. unfold invariant. by rewrite Heq. Qed.

Lemma op_assign_other_live T this rhs w o :
  invariant w this = true ->
  ptr_ rhs <> null -> ptr_ rhs <> ptr_ this -> heap w !! ptr_ rhs = Some o ->
  is_a (dynamic_type o) T = true ->
  let a := new_addr (heap (destroyed w this)) in
  op_assign T this (Other rhs) w
  = Some (mkPtr a (Some (Deleter T)),
          mkWorld (<[a := copy_as T o]> (heap (destroyed w this)))
                  (log (destroyed w this) ++ [New T a])).
Proof.
  intros Hinv Hp Hne Ho Hisa a.
  assert (Hlive : heap (destroyed w this) !! ptr_ rhs = Some o)
    by by rewrite destroyed_lookup_ne.
  unfold op_assign, bind, op_bool, get. rewrite (doDelete_spec w this Hinv).
  rewrite bool_decide_eq_false_2 by done. cbn [negb].
  by rewrite (new_copy_live T _ _ o Hlive Hisa).
Qed.


(** X14: copying a null pointer, through either copy constructor or through
    the constructor from a pointer to const, gives a pointer with both
    fields null and allocates nothing, also when the source carries a
    deleter on its null pointer. *)
Theorem copy_of_null_is_null T src w :
  ptr_ src = null ->
  DeepCopyPtr_copy T src w = Some (DeepCopyPtr_default, w)
  /\ DeepCopyPtr_copy_other T src w = Some (DeepCopyPtr_default, w)
  /\ DeepCopyPtr_const_ptr T (get src) w = Some (DeepCopyPtr_default, w)
  /\ op_bool DeepCopyPtr_default = false
  /\ invariant w DeepCopyPtr_default = true.
Proof.
  intros Hp.
  unfold DeepCopyPtr_copy, DeepCopyPtr_copy_other, DeepCopyPtr_const_ptr,
    get, bind, ret.
  rewrite Hp. by destruct (decide (null = null)).
Qed.

(** X15: constructing from a pointer to const clones the object pointed at:
    the new pointer holds a fresh address, different from the source's,
    with an object equal to the source's and a deleter for the element
    type; the source object stays alive and is not owned. *)
Theorem const_pointer_constructor_clones T p w o :
  p <> null -> heap w !! p = Some o -> is_a (dynamic_type o) T = true ->
  exists a w',
    DeepCopyPtr_const_ptr T p w = Some (mkPtr a (Some (Deleter T)), w')
    /\ a <> null /\ a <> p /\ heap w !! a = None
    /\ heap w' = <[a := copy_as T o]> (heap w)
    /\ log w' = log w ++ [New T a]
    /\ equal_as T (copy_as T o) o = true
    /\ heap w' !! p = Some o
    /\ op_deref (mkPtr a (Some (Deleter T))) w' = Some (copy_as T o, w')
    /\ invariant w' (mkPtr a (Some (Deleter T))) = true.
Proof.
  intros Hp Ho Hisa.
  set (a := new_addr (heap w)).
  assert (Hfresh : heap w !! a = None) by apply new_addr_fresh.
  assert (Hnn : a <> null) by apply new_addr_not_null.
  assert (Hne : a <> p) by (intros Heq; congruence).
  exists a, (mkWorld (<[a := copy_as T o]> (heap w)) (log w ++ [New T a])).
  repeat apply conj; try done.
  - unfold DeepCopyPtr_const_ptr, bind, ret.
    destruct (decide (p = null)); [done |].
    by rewrite (new_copy_live T p w o).
  - by apply copy_as_equal.
  - by cbn; rewrite lookup_insert_ne.
  - unfold op_deref; cbn. destruct (decide (a = null)); [done |].
    by rewrite lookup_insert_eq.
  - unfold invariant; cbn. rewrite lookup_insert_eq.
    rewrite bool_decide_eq_false_2 by done.
    by rewrite bool_decide_eq_true_2 by apply copy_as_dynamic_type.
Qed.

(** X16: equality compares the held addresses only: a copy, though its
    pointee equals the source's, compares unequal to the pointer it was
    copied from and to the raw address of the source's pointee, and
    every pointer compares equal to itself and to the address it
    holds. *)
Theorem copy_compares_unequal_to_source T src w o :
  ptr_ src <> null -> heap w !! ptr_ src = Some o ->
  is_a (dynamic_type o) T = true ->
  exists copy w' o',
    DeepCopyPtr_copy T src w = Some (copy, w')
    /\ heap w' !! ptr_ copy = Some o' /\ equal_as T o' o = true
    /\ op_eq src copy = false /\ op_eq copy src = false
    /\ op_ne src copy = true
    /\ op_eq_ptr copy (get src) = false /\ op_ne_ptr copy (get src) = true
    /\ op_eq copy copy = true /\ op_ne copy copy = false
    /\ op_eq_ptr copy (get copy) = true.
Proof.
  intros Hp Ho Hisa.
  set (a := new_addr (heap w)).
  assert (Hfresh : heap w !! a = None) by apply new_addr_fresh.
  assert (Hne : a <> ptr_ src) by (intros Heq; congruence).
  exists (mkPtr a (Some (Deleter T))),
    (mkWorld (<[a := copy_as T o]> (heap w)) (log w ++ [New T a])),
    (copy_as T o).
  unfold op_ne, op_ne_ptr, op_eq, op_eq_ptr, get; cbn.
  repeat apply conj.
  - unfold DeepCopyPtr_copy, get, bind, ret.
    destruct (decide (ptr_ src = null)); [done |].
    by rewrite (new_copy_live T (ptr_ src) w o).
  - apply lookup_insert_eq.
  - by apply copy_as_equal.
  - by rewrite bool_decide_eq_false_2.
  - by rewrite bool_decide_eq_false_2.
  - by rewrite bool_decide_eq_false_2.
  - by rewrite bool_decide_eq_false_2.
  - by rewrite bool_decide_eq_false_2.
  - by rewrite bool_decide_eq_true_2.
  - by rewrite bool_decide_eq_true_2.
  - by rewrite bool_decide_eq_true_2.
Qed.

(** X17: [swap] exchanges the pointer together with its deleter, so each
    pointee stays with the deleter that remembers its class: both
    objects keep the invariant; swapping back restores both objects, and
    swapping an object with itself changes nothing. *)
Theorem swap_exchanges_pointer_and_deleter this other w :
  invariant w this = true -> invariant w other = true ->
  exists this' other',
    swap this (Other other) = (this', Other other')
    /\ ptr_ this' = ptr_ other /\ deleter_ this' = deleter_ other
    /\ ptr_ other' = ptr_ this /\ deleter_ other' = deleter_ this
    /\ invariant w this' = true /\ invariant w other' = true
    /\ swap this' (Other other') = (this, Other other)
    /\ swap this Self = (this, Self).
Proof.
  intros Hthis Hother. destruct this as [p d], other as [p' d'].
  by exists (mkPtr p' d'), (mkPtr p d).
Qed.

(** X18: [reset(p)] with the address already held does nothing.  With any
    other [p] it destroys the current pointee through its own deleter
    and adopts [p] without cloning it, with a deleter for the element
    type, or for [Other] through the member template; [reset()] leaves
    both fields null.  The invariant is kept when [p] is null or points
    at an object allocated as the class the deleter is made for. *)
Theorem reset_destroys_then_adopts T this p w :
  invariant w this = true ->
  (p = ptr_ this -> reset T this p w = Some (this, w))
  /\ (p <> ptr_ this ->
      reset T this p w = Some (DeepCopyPtr_ptr T p, destroyed w this)
      /\ get (DeepCopyPtr_ptr T p) = p
      /\ forall D,
           reset_other D this p w
           = Some (DeepCopyPtr_derived_ptr D p, destroyed w this))
  /\ (ptr_ this <> null ->
      reset T this null w = Some (DeepCopyPtr_default, destroyed w this))
  /\ (p <> ptr_ this ->
      (p = null \/ exists o, heap w !! p = Some o /\ dynamic_type o = T) ->
      invariant (destroyed w this) (DeepCopyPtr_ptr T p) = true
      /\ invariant (destroyed w this) (DeepCopyPtr_derived_ptr T p) = true).
Proof.
  intros Hinv. pose proof (doDelete_spec w this Hinv) as Hdel.
  assert (Heta : mkPtr (ptr_ this) (deleter_ this) = this) by by destruct this.
  repeat apply conj.
  - intros ->. unfold reset. by destruct (decide (ptr_ this = ptr_ this)).
  - intros Hne. repeat apply conj; [| done |].
    + unfold reset. destruct (decide (p = ptr_ this)); [done |].
      cbn. unfold DeepCopyPtr_destructor, bind. by rewrite Heta, Hdel.
    + intros D. unfold reset_other. cbn.
      unfold DeepCopyPtr_destructor, bind. by rewrite Heta, Hdel.
  - intros Hnn. unfold reset.
    destruct (decide (null = ptr_ this)); [done |].
    cbn. unfold DeepCopyPtr_destructor, bind. by rewrite Heta, Hdel.
  - intros Hne Hp. apply invariant_ptr.
    destruct Hp as [-> | (o & Ho & Hdyn)]; [by left | right].
    exists o. by rewrite destroyed_lookup_ne.
Qed.

(** X19: the member template [reset(Other *p)] has no test for the address
    already held: called with it, the temporary takes over the old
    fields and deletes the pointee, and the object is left holding the
    address of the deleted object, so that dereferencing or destroying
    it has no defined behaviour. *)
Theorem reset_other_with_held_address_dangles D this w :
  invariant w this = true -> ptr_ this <> null ->
  let this' := mkPtr (ptr_ this) (Some (Deleter D)) in
  reset_other D this (ptr_ this) w = Some (this', destroyed w this)
  /\ heap (destroyed w this) !! ptr_ this' = None
  /\ op_bool this' = true
  /\ invariant (destroyed w this) this' = false
  /\ op_deref this' (destroyed w this) = None
  /\ DeepCopyPtr_destructor this' (destroyed w this) = None.
Proof.
  intros Hinv Hp this'.
  pose proof (doDelete_spec w this Hinv) as Hdel.
  assert (Heta : mkPtr (ptr_ this) (deleter_ this) = this) by by destruct this.
  assert (Hgone : heap (destroyed w this) !! ptr_ this = None).
  { destruct (invariant_cases w this Hinv)
      as [-> | (c & o & Hd & _ & _ & _)]; [done |].
    by destruct (destroyed_pointee w this c Hinv Hd). }
  subst this'. repeat apply conj.
  - unfold reset_other, DeepCopyPtr_derived_ptr. cbn.
    destruct (decide (ptr_ this = null)); [done |].
    unfold DeepCopyPtr_destructor, bind. by rewrite Heta, Hdel.
  - done.
  - unfold op_bool, get; cbn. by rewrite bool_decide_eq_false_2.
  - unfold invariant; cbn. rewrite Hgone. apply andb_false_r.
  - unfold op_deref; cbn. destruct (decide (ptr_ this = null)); [done |].
    by rewrite Hgone.
  - unfold DeepCopyPtr_destructor, doDelete, call_deleter, delete_as, bind; cbn.
    destruct (decide (ptr_ this = null)); [done |].
    unfold read_as. by rewrite Hgone.
Qed.

(** X20: assigning the address already held is guarded only in the
    assignment operator for [const element_type *]: there it does
    nothing.  The member template for [const SomeType *] deletes the
    pointee first and then copies from the address of the deleted
    object, which has no defined behaviour. *)
Theorem assignment_of_held_address T S this w :
  invariant w this = true -> ptr_ this <> null ->
  op_assign_ptr T this (get this) w = Some (this, w)
  /\ op_assign_some_ptr S this (get this) w = None.
Proof.
  intros Hinv Hp. split.
  - unfold op_assign_ptr. by destruct (decide (get this = get this)).
  - unfold op_assign_some_ptr, bind, get.
    rewrite (doDelete_spec w this Hinv).
    destruct (decide (ptr_ this = null)); [done |].
    destruct (invariant_cases w this Hinv)
      as [-> | (c & o & Hd & _ & _ & _)]; [done |].
    destruct (destroyed_pointee w this c Hinv Hd) as [Hgone _].
    unfold new_copy, bind, read_as. by rewrite Hgone.
Qed.

(** X21: in a chain [dst1 = dst2 = src] the source is cloned twice: the
    three pointers hold three different addresses, [dst2] a clone of the
    source's pointee and [dst1] a clone of that clone, the source's
    pointee is untouched, and both targets keep the invariant. *)
Theorem chained_assignment_clones_twice T dst1 dst2 src w o :
  invariant w dst1 = true -> invariant w dst2 = true ->
  ptr_ src <> null -> heap w !! ptr_ src = Some o ->
  is_a (dynamic_type o) T = true ->
  ptr_ src <> ptr_ dst1 -> ptr_ src <> ptr_ dst2 ->
  (ptr_ dst1 <> ptr_ dst2 \/ ptr_ dst1 = null) ->
  exists d1 d2 w',
    bind (op_assign T dst2 (Other src))
      (fun d2 => bind (op_assign T dst1 (Other d2)) (fun d1 => ret (d1, d2))) w
    = Some ((d1, d2), w')
    /\ ptr_ d1 <> null /\ ptr_ d2 <> null
    /\ ptr_ d1 <> ptr_ d2 /\ ptr_ d1 <> ptr_ src /\ ptr_ d2 <> ptr_ src
    /\ heap w' !! ptr_ src = Some o
    /\ heap w' !! ptr_ d2 = Some (copy_as T o)
    /\ heap w' !! ptr_ d1 = Some (copy_as T (copy_as T o))
    /\ invariant w' d1 = true /\ invariant w' d2 = true.
Proof.
  intros Hinv1 Hinv2 Hp Ho Hisa Hne1 Hne2 Hdist.
  (* dst2 = src *)
  set (a2 := new_addr (heap (destroyed w dst2))).
  set (w1 := mkWorld (<[a2 := copy_as T o]> (heap (destroyed w dst2)))
                     (log (destroyed w dst2) ++ [New T a2])).
  assert (Hstep1 : op_assign T dst2 (Other src) w
                   = Some (mkPtr a2 (Some (Deleter T)), w1))
    by by apply op_assign_other_live.
  assert (Hfresh2 : heap (destroyed w dst2) !! a2 = None) by apply new_addr_fresh.
  assert (Hnn2 : a2 <> null) by apply new_addr_not_null.
  assert (Hsrc1 : heap (destroyed w dst2) !! ptr_ src = Some o)
    by by rewrite destroyed_lookup_ne.
  assert (Ha2src : a2 <> ptr_ src) by (intros Heq; congruence).
  assert (Ha2dst1 : a2 <> ptr_ dst1).
  { destruct (invariant_cases w dst1 Hinv1)
      as [-> | (c & o1 & _ & Hnn & Ho1 & _)]; [done |].
    destruct Hdist as [Hd | Hd]; [|done].
    intros Heq. rewrite Heq, destroyed_lookup_ne in Hfresh2 by done. congruence. }
  assert (Hinv1' : invariant w1 dst1 = true).
  { rewrite <- Hinv1. apply invariant_same_pointee. cbn.
    rewrite lookup_insert_ne by done.
    destruct (invariant_cases w dst1 Hinv1)
      as [-> | (c & o1 & _ & Hnn & _ & _)].
    - unfold destroyed.
      destruct (invariant_cases w dst2 Hinv2)
        as [-> | (c2 & o2 & Hd2 & Hnn2' & Ho2 & _)]; [done |].
      rewrite Hd2. destruct (decide (ptr_ dst2 = null)); [done |].
      cbn. by rewrite lookup_delete_ne.
    - destruct Hdist as [Hd | Hd]; [|done]. by rewrite destroyed_lookup_ne. }
  (* dst1 = dst2 *)
  assert (Hlive2 : heap w1 !! a2 = Some (copy_as T o))
    by by cbn; rewrite lookup_insert_eq.
  assert (Hisa2 : is_a (dynamic_type (copy_as T o)) T = true)
    by (rewrite copy_as_dynamic_type; apply is_a_refl).
  set (a1 := new_addr (heap (destroyed w1 dst1))).
  set (w2 := mkWorld (<[a1 := copy_as T (copy_as T o)]> (heap (destroyed w1 dst1)))
                     (log (destroyed w1 dst1) ++ [New T a1])).
  assert (Hstep2 : op_assign T dst1 (Other (mkPtr a2 (Some (Deleter T)))) w1
                   = Some (mkPtr a1 (Some (Deleter T)), w2))
    by by apply op_assign_other_live.
  assert (Hfresh1 : heap (destroyed w1 dst1) !! a1 = None) by apply new_addr_fresh.
  assert (Hnn1 : a1 <> null) by apply new_addr_not_null.
  assert (Hlive2' : heap (destroyed w1 dst1) !! a2 = Some (copy_as T o))
    by by rewrite destroyed_lookup_ne.
  assert (Hsrc2 : heap (destroyed w1 dst1) !! ptr_ src = Some o).
  { rewrite destroyed_lookup_ne by done. cbn. by rewrite lookup_insert_ne. }
  assert (Ha1a2 : a1 <> a2) by (intros Heq; congruence).
  assert (Ha1src : a1 <> ptr_ src) by (intros Heq; congruence).
  exists (mkPtr a1 (Some (Deleter T))), (mkPtr a2 (Some (Deleter T))), w2.
  repeat apply conj; try done.
  - unfold bind at 1. rewrite Hstep1. unfold bind at 1. by rewrite Hstep2.
  - by cbn; rewrite lookup_insert_ne.
  - by cbn; rewrite lookup_insert_ne.
  - by cbn; rewrite lookup_insert_eq.
  - unfold invariant; cbn. rewrite lookup_insert_eq.
    rewrite bool_decide_eq_false_2 by done.
    by rewrite bool_decide_eq_true_2 by apply copy_as_dynamic_type.
  - unfold invariant; cbn. rewrite lookup_insert_ne by done. rewrite Hlive2'.
    rewrite bool_decide_eq_false_2 by done.
    by rewrite bool_decide_eq_true_2 by apply copy_as_dynamic_type.
Qed.

(** X22: the deleter that assignment from a null raw pointer leaves on the
    null pointer deletes nothing later: null assignment followed by
    destruction deletes the original pointee once and ends with both
    fields null, and null assignment followed by a copy assignment gives
    the result of the copy assignment alone. *)
Theorem null_assignment_then_destruction T this w :
  invariant w this = true -> ptr_ this <> null ->
  bind (op_assign_ptr T this null) DeepCopyPtr_destructor w
    = Some (DeepCopyPtr_default, destroyed w this)
  /\ (forall S,
      bind (op_assign_some_ptr S this null) DeepCopyPtr_destructor w
      = Some (DeepCopyPtr_default, destroyed w this))
  /\ deletions (ptr_ this) (log (destroyed w this))
     = Datatypes.S (deletions (ptr_ this) (log w))
  /\ (forall rhs,
      bind (op_assign_ptr T this null) (fun this' => op_assign T this' (Other rhs)) w
      = op_assign T this (Other rhs) w).
Proof.
  intros Hinv Hp. pose proof (doDelete_spec w this Hinv) as Hdel.
  assert (Hnull : op_assign_ptr T this null w
                  = Some (mkPtr null (Some (Deleter T)), destroyed w this)).
  { unfold op_assign_ptr, bind, get.
    destruct (decide (ptr_ this = null)); [done |]. rewrite Hdel.
    by destruct (decide (null = null)). }
  repeat apply conj.
  - unfold bind at 1. rewrite Hnull. by apply doDelete_null.
  - intros S. unfold bind at 1, op_assign_some_ptr, bind. rewrite Hdel.
    destruct (decide (null = null)); [|done]. by apply doDelete_null.
  - destruct (invariant_cases w this Hinv)
      as [-> | (c & o & Hd & _ & _ & _)]; [done |].
    destruct (destroyed_pointee w this c Hinv Hd) as [_ ->].
    unfold deletions. rewrite List.filter_app, length_app. cbn.
    rewrite bool_decide_eq_true_2 by done. cbn. lia.
  - intros rhs. unfold bind at 1. rewrite Hnull.
    unfold op_assign, bind. rewrite Hdel.
    by rewrite (doDelete_null (destroyed w this) (mkPtr null (Some (Deleter T)))).
Qed.








End Ownership.


Lemma copy_of_null_is_null_witness :
  let src := mkPtr null (Some (Deleter (C : class))) in
  ptr_ src = null
  /\ DeepCopyPtr_copy C src derived_42 = Some (DeepCopyPtr_default, derived_42).
Proof.
  intros src. split; [reflexivity |].
  exact (proj1 (copy_of_null_is_null (OM:=test_classes) C src derived_42 eq_refl)).
Defined.

(** [testCopyConstructor_fromConstPtr]: [const C *cnp = new C();
    DeepCopyPtr<C> cdp(cnp);]. *)
Lemma const_pointer_constructor_clones_witness :
  let w := base_and_derived in
  let o := mkObject C 1 in
  1%N <> null /\ heap w !! 1%N = Some o /\ is_a (dynamic_type o) C = true
  /\ exists a w',
       DeepCopyPtr_const_ptr C 1%N w = Some (mkPtr a (Some (Deleter (C : class))), w')
       /\ a <> null /\ a <> 1%N /\ heap w !! a = None
       /\ heap w' = <[a := copy_as C o]> (heap w)
       /\ log w' = log w ++ [New (C : class) a]
       /\ equal_as C (copy_as C o) o = true
       /\ heap w' !! 1%N = Some o
       /\ op_deref (mkPtr a (Some (Deleter (C : class)))) w' = Some (copy_as C o, w')
       /\ invariant w' (mkPtr a (Some (Deleter (C : class)))) = true.
Proof.
  intros w o.
  split; [by vm_compute | split; [reflexivity | split; [reflexivity |]]].
  apply (const_pointer_constructor_clones (OM:=test_classes) C 1%N w o);
    [by vm_compute | reflexivity | reflexivity].
Defined.

(** [testOpeqeq]: [DeepCopyPtr<C> p1(new C()); DeepCopyPtr<C> p2(p1);]. *)
Lemma copy_compares_unequal_to_source_witness :
  let w := base_and_derived in
  let src := DeepCopyPtr_ptr C 1%N in
  let o := mkObject C 1 in
  ptr_ src <> null /\ heap w !! ptr_ src = Some o
  /\ is_a (dynamic_type o) C = true
  /\ exists copy w' o',
       DeepCopyPtr_copy C src w = Some (copy, w')
       /\ heap w' !! ptr_ copy = Some o' /\ equal_as C o' o = true
       /\ op_eq src copy = false /\ op_eq copy src = false
       /\ op_ne src copy = true
       /\ op_eq_ptr copy (get src) = false /\ op_ne_ptr copy (get src) = true
       /\ op_eq copy copy = true /\ op_ne copy copy = false
       /\ op_eq_ptr copy (get copy) = true.
Proof.
  intros w src o.
  split; [by vm_compute | split; [reflexivity | split; [reflexivity |]]].
  apply (copy_compares_unequal_to_source (OM:=test_classes) C src w o);
    [by vm_compute | reflexivity | reflexivity].
Defined.

(** [testSwap] *)
Lemma swap_exchanges_pointer_and_deleter_witness :
  let w := base_and_derived in
  let this := DeepCopyPtr_ptr C 1%N in
  let other := DeepCopyPtr_derived_ptr D 2%N in
  invariant w this = true /\ invariant w other = true
  /\ exists this' other',
       swap this (Other other) = (this', Other other')
       /\ ptr_ this' = ptr_ other /\ deleter_ this' = deleter_ other
       /\ ptr_ other' = ptr_ this /\ deleter_ other' = deleter_ this
       /\ invariant w this' = true /\ invariant w other' = true
       /\ swap this' (Other other') = (this, Other other)
       /\ swap this Self = (this, Self).
Proof.
  intros w this other. split; [reflexivity | split; [reflexivity |]].
  apply (swap_exchanges_pointer_and_deleter (OM:=test_classes) this other w);
    reflexivity.
Defined.

(** [testReset_4sameType]: [p1.reset(0)] on a pointer that holds an
    object. *)
Lemma reset_destroys_then_adopts_witness :
  let w := base_and_derived in
  let this := DeepCopyPtr_ptr C 1%N in
  invariant w this = true
  /\ reset C this null w = Some (DeepCopyPtr_default, destroyed w this)
  /\ reset C this 1%N w = Some (this, w).
Proof.
  intros w this. split; [reflexivity |].
  destruct (reset_destroys_then_adopts (OM:=test_classes) C this 1%N w eq_refl)
    as (Hsame & _ & Hnull & _).
  split; [apply Hnull; by vm_compute | by apply Hsame].
Defined.

(** [DeepCopyPtr<C> cdp(new D(1)); cdp.reset(static_cast<D *>(cdp.get()));] *)
Lemma reset_other_with_held_address_dangles_witness :
  let w := base_and_derived in
  let this := DeepCopyPtr_derived_ptr D 2%N in
  invariant w this = true /\ ptr_ this <> null
  /\ let this' := mkPtr (ptr_ this) (Some (Deleter (D : class))) in
     reset_other D this (ptr_ this) w = Some (this', destroyed w this)
     /\ heap (destroyed w this) !! ptr_ this' = None
     /\ op_bool this' = true
     /\ invariant (destroyed w this) this' = false
     /\ op_deref this' (destroyed w this) = None
     /\ DeepCopyPtr_destructor this' (destroyed w this) = None.
Proof.
  intros w this. split; [reflexivity | split; [by vm_compute |]].
  apply (reset_other_with_held_address_dangles (OM:=test_classes) D this w);
    [reflexivity | by vm_compute].
Defined.

(** [D *d = new D(1); DeepCopyPtr<C> c(d); c = d;] *)
Lemma assignment_of_held_address_witness :
  let w := base_and_derived in
  let this := DeepCopyPtr_derived_ptr D 2%N in
  invariant w this = true /\ ptr_ this <> null
  /\ op_assign_ptr C this (get this) w = Some (this, w)
  /\ op_assign_some_ptr D this (get this) w = None.
Proof.
  intros w this. split; [reflexivity | split; [by vm_compute |]].
  apply (assignment_of_held_address (OM:=test_classes) C D this w);
    [reflexivity | by vm_compute].
Defined.

(** [testOpequal_sp_toSame]: [DeepCopyPtr<D> src(new D(1)), dst1, dst2;
    dst1 = dst2 = src;]. *)
Lemma chained_assignment_clones_twice_witness :
  let w := base_and_derived in
  let src := DeepCopyPtr_ptr D 2%N in
  let o := mkObject D 1 in
  let dst1 := DeepCopyPtr_default in
  let dst2 := DeepCopyPtr_default in
  invariant w dst1 = true /\ invariant w dst2 = true
  /\ ptr_ src <> null /\ heap w !! ptr_ src = Some o
  /\ is_a (dynamic_type o) D = true
  /\ ptr_ src <> ptr_ dst1 /\ ptr_ src <> ptr_ dst2
  /\ (ptr_ dst1 <> ptr_ dst2 \/ ptr_ dst1 = null)
  /\ exists d1 d2 w',
       bind (op_assign D dst2 (Other src))
         (fun d2 => bind (op_assign D dst1 (Other d2)) (fun d1 => ret (d1, d2))) w
       = Some ((d1, d2), w')
       /\ ptr_ d1 <> null /\ ptr_ d2 <> null
       /\ ptr_ d1 <> ptr_ d2 /\ ptr_ d1 <> ptr_ src /\ ptr_ d2 <> ptr_ src
       /\ heap w' !! ptr_ src = Some o
       /\ heap w' !! ptr_ d2 = Some (copy_as D o)
       /\ heap w' !! ptr_ d1 = Some (copy_as D (copy_as D o))
       /\ invariant w' d1 = true /\ invariant w' d2 = true.
Proof.
  intros w src o dst1 dst2.
  split; [reflexivity | split; [reflexivity |]].
  split; [by vm_compute | split; [reflexivity | split; [reflexivity |]]].
  split; [by vm_compute | split; [by vm_compute | split; [by right |]]].
  apply (chained_assignment_clones_twice (OM:=test_classes) D dst1 dst2 src w o);
    [reflexivity | reflexivity | by vm_compute | reflexivity | reflexivity
    | by vm_compute | by vm_compute | by right].
Defined.

(** [testOpequal_lp_toSame_from0] followed by the end of the scope. *)
Lemma null_assignment_then_destruction_witness :
  let w := base_and_derived in
  let this := DeepCopyPtr_ptr C 1%N in
  invariant w this = true /\ ptr_ this <> null
  /\ bind (op_assign_ptr C this null) DeepCopyPtr_destructor w
     = Some (DeepCopyPtr_default, destroyed w this).
Proof.
  intros w this. split; [reflexivity | split; [by vm_compute |]].
  exact (proj1 (null_assignment_then_destruction (OM:=test_classes) C this w
                  eq_refl ltac:(by vm_compute))).
Defined.


End DeepCopyPtr.
